(** * Lucid: focus-cycle engine, task store and date/time reconciliation

    A shallow embedding of [src/index.tsx].  The React component [App] keeps
    its state in [useState] cells; every handler reads the cells of the
    current render and writes new values.  Here the cells are the fields of
    one record, [AppState], and every handler is a function from the state
    of the render it runs in to the state of the next render.

    JavaScript numbers are modelled as [Z]: every number the component stores
    is an integer (a clock reading, the result of [parseInt], or a sum,
    difference or product of those), and the model does not follow them past
    the range in which doubles are exact. *)

From Stdlib Require Import ZArith List Bool Lia String Ascii.
From Stdlib Require Import Sorted Permutation.
From Stdlib Require Import Decimal DecimalString DecimalNat.
Import ListNotations.

Local Open Scope Z_scope.

(** ** Data model (lines 13-46) *)

Inductive Priority := High | Medium | Low.
Inductive Status := active | completed.
Inductive Source := lucid | google.
Inductive Mode := ModeWork | ModeShortBreak | ModeLongBreak.

Record ParsedTask := mkTask {
  id : Z;
  taskName : string;
  date : string;
  time : option string;
  category : string;
  priority : Priority;
  status : Status;
  source : Source
}.

(** [Omit<ParsedTask, 'id' | 'status' | 'source'>]: what the parsing service
    returns and what [handleAccept] turns into a task. *)
Record Candidate := mkCandidate {
  cTaskName : string;
  cDate : string;
  cTime : option string;
  cCategory : string;
  cPriority : Priority
}.

Record PomodoroSettings := mkSettings {
  work : Z;
  shortBreak : Z;
  longBreak : Z;
  cycles : Z
}.

Record ActiveTimer := mkTimer {
  taskId : Z;
  timeLeft : Z;
  mode : Mode;
  cycleCount : Z;
  isPaused : bool
}.

Definition DEFAULT_SETTINGS : PomodoroSettings :=
  {| work := 25; shortBreak := 5; longBreak := 15; cycles := 4 |}.

(** The [useState] cells of [App] that the handlers below read or write. *)
Record AppState := mkApp {
  parsedTask : option Candidate;
  tasks : list ParsedTask;
  isSettingsOpen : bool;
  pomodoroSettings : PomodoroSettings;
  activeTimer : option ActiveTimer;
  googleConnected : bool
}.

Definition initialState : AppState :=
  {| parsedTask := None;
     tasks := [];
     isSettingsOpen := false;
     pomodoroSettings := DEFAULT_SETTINGS;
     activeTimer := None;
     googleConnected := false |}.

Definition setActiveTimer (v : option ActiveTimer) (s : AppState) : AppState :=
  {| parsedTask := parsedTask s;
     tasks := tasks s;
     isSettingsOpen := isSettingsOpen s;
     pomodoroSettings := pomodoroSettings s;
     activeTimer := v;
     googleConnected := googleConnected s |}.

Definition setTasks (v : list ParsedTask) (s : AppState) : AppState :=
  {| parsedTask := parsedTask s;
     tasks := v;
     isSettingsOpen := isSettingsOpen s;
     pomodoroSettings := pomodoroSettings s;
     activeTimer := activeTimer s;
     googleConnected := googleConnected s |}.

Definition setPomodoroSettings (v : PomodoroSettings) (s : AppState) : AppState :=
  {| parsedTask := parsedTask s;
     tasks := tasks s;
     isSettingsOpen := isSettingsOpen s;
     pomodoroSettings := v;
     activeTimer := activeTimer s;
     googleConnected := googleConnected s |}.

Definition setParsedTask (v : option Candidate) (s : AppState) : AppState :=
  {| parsedTask := v;
     tasks := tasks s;
     isSettingsOpen := isSettingsOpen s;
     pomodoroSettings := pomodoroSettings s;
     activeTimer := activeTimer s;
     googleConnected := googleConnected s |}.

Definition setIsSettingsOpen (v : bool) (s : AppState) : AppState :=
  {| parsedTask := parsedTask s;
     tasks := tasks s;
     isSettingsOpen := v;
     pomodoroSettings := pomodoroSettings s;
     activeTimer := activeTimer s;
     googleConnected := googleConnected s |}.

Definition setGoogleConnected (v : bool) (s : AppState) : AppState :=
  {| parsedTask := parsedTask s;
     tasks := tasks s;
     isSettingsOpen := isSettingsOpen s;
     pomodoroSettings := pomodoroSettings s;
     activeTimer := activeTimer s;
     googleConnected := v |}.

(** ** The focus-cycle engine (lines 63-134) *)

(** JavaScript's [a % b] on integers: the remainder has the sign of the
    dividend, and a zero divisor gives NaN ([None]). *)
Definition js_rem (a b : Z) : option Z :=
  if b =? 0 then None else Some (Z.rem a b).

(** [x === 0] for the result of [%]: NaN is not equal to anything. *)
Definition is_zero (r : option Z) : bool :=
  match r with
  | Some v => v =? 0
  | None => false
  end.

(** [transitionToNextMode] (lines 83-110).  Every branch ends in one call
    [setActiveTimer({...currentTimer, ...})]; the function below is the
    object passed in that call.  The spread copies the fields that are not
    overwritten, [taskId] and [isPaused] among them. *)
Definition transitionToNextMode (settings : PomodoroSettings)
    (currentTimer : ActiveTimer) : ActiveTimer :=
  match mode currentTimer with
  | ModeWork =>
      let newCycleCount := cycleCount currentTimer + 1 in
      let isLongBreakTime := is_zero (js_rem newCycleCount (cycles settings)) in
      if isLongBreakTime then
        {| taskId := taskId currentTimer;
           timeLeft := longBreak settings * 60;
           mode := ModeLongBreak;
           cycleCount := newCycleCount;
           isPaused := isPaused currentTimer |}
      else
        {| taskId := taskId currentTimer;
           timeLeft := shortBreak settings * 60;
           mode := ModeShortBreak;
           cycleCount := newCycleCount;
           isPaused := isPaused currentTimer |}
  | _ =>
      {| taskId := taskId currentTimer;
         timeLeft := work settings * 60;
         mode := ModeWork;
         cycleCount := cycleCount currentTimer;
         isPaused := isPaused currentTimer |}
  end.

(** The updater passed to [setActiveTimer] by the interval callback
    (lines 68-77).  The first component is the value the updater returns; the
    second lists the [setActiveTimer] calls made while it runs (the one inside
    [transitionToNextMode]). *)
Definition tickUpdater (settings : PomodoroSettings) (prev : option ActiveTimer)
    : option ActiveTimer * list (option ActiveTimer) :=
  match prev with
  | None => (None, [])
  | Some p =>
      if timeLeft p >? 1 then
        (Some {| taskId := taskId p;
                 timeLeft := timeLeft p - 1;
                 mode := mode p;
                 cycleCount := cycleCount p;
                 isPaused := isPaused p |}, [])
      else
        (None, [Some (transitionToNextMode settings p)])
  end.

(** How React runs the updater when the interval calls [setActiveTimer].
    [DuringRender]: an update is pending on the component (the usual case
    one second after the render of the previous tick), so the updater is
    queued and run while the component renders; the [setActiveTimer] that
    [transitionToNextMode] makes inside it is then a render-phase update,
    queued behind the updater's own result.  [Eagerly]: nothing is pending on
    the component (its last render bailed out), so the updater is run at
    once, inside the call of [setActiveTimer]; the [setActiveTimer] made
    inside it is queued first, and the updater's own result behind it. *)
Inductive UpdaterRun := DuringRender | Eagerly.

(** The updates on the state cell, in the order in which they are
    processed. *)
Definition updateQueue (how : UpdaterRun)
    (r : option ActiveTimer * list (option ActiveTimer))
    : list (option ActiveTimer) :=
  match how with
  | DuringRender => fst r :: snd r
  | Eagerly => snd r ++ [fst r]
  end.

(** The state cell after the update: the value of the last update in the
    queue.  At the end of an interval the updater returns [null] (line 76,
    "Stop old timer, new one will be set"): the timer set by
    [transitionToNextMode] stands when the updater ran during render, and
    [null] stands when it ran eagerly. *)
Definition commitUpdate (how : UpdaterRun)
    (r : option ActiveTimer * list (option ActiveTimer))
    : option ActiveTimer :=
  last (updateQueue how r) (fst r).

(** The effect of lines 64-81 installs the interval only when a timer exists
    and is not paused (line 65). *)
Definition intervalRunning (s : AppState) : bool :=
  match activeTimer s with
  | None => false
  | Some t => negb (isPaused t)
  end.

(** One firing of the interval: one elapsed second. *)
Definition tick (how : UpdaterRun) (s : AppState) : AppState :=
  if intervalRunning s then
    setActiveTimer
      (commitUpdate how (tickUpdater (pomodoroSettings s) (activeTimer s))) s
  else s.

(** [handleStartTimer] (lines 112-120). *)
Definition handleStartTimer (tid : Z) (s : AppState) : AppState :=
  setActiveTimer
    (Some {| taskId := tid;
             timeLeft := work (pomodoroSettings s) * 60;
             mode := ModeWork;
             cycleCount := 0;
             isPaused := false |}) s.

(** [handlePauseResumeTimer] (lines 122-124). *)
Definition handlePauseResumeTimer (s : AppState) : AppState :=
  setActiveTimer
    (match activeTimer s with
     | Some prev =>
         Some {| taskId := taskId prev;
                 timeLeft := timeLeft prev;
                 mode := mode prev;
                 cycleCount := cycleCount prev;
                 isPaused := negb (isPaused prev) |}
     | None => None
     end) s.

(** [handleSkip] (lines 126-130). *)
Definition handleSkip (s : AppState) : AppState :=
  match activeTimer s with
  | Some t => setActiveTimer (Some (transitionToNextMode (pomodoroSettings s) t)) s
  | None => s
  end.

(** [handleResetTimer] (lines 132-134). *)
Definition handleResetTimer (s : AppState) : AppState :=
  setActiveTimer None s.

(** The "Start Timer" button in the row of the active task [tid]
    (lines 484-490): it is rendered with [disabled={!!activeTimer}], and a
    click on a disabled button calls no handler. *)
Definition startButtonDisabled (s : AppState) : bool :=
  match activeTimer s with
  | Some _ => true
  | None => false
  end.

Definition clickStartTimer (tid : Z) (s : AppState) : AppState :=
  if startButtonDisabled s then s else handleStartTimer tid s.

(** ** Settings form (lines 136-141) *)

(** [keyof PomodoroSettings]. *)
Inductive SettingsKey := KeyWork | KeyShortBreak | KeyLongBreak | KeyCycles.

Definition isWhiteSpace (c : ascii) : bool :=
  let n := nat_of_ascii c in
  ((9 <=? n) && (n <=? 13) || (n =? 32))%nat.

Fixpoint trimStart (s : string) : string :=
  match s with
  | String c r => if isWhiteSpace c then trimStart r else s
  | EmptyString => s
  end.

Definition digitValue (c : ascii) : option nat :=
  let n := nat_of_ascii c in
  if ((48 <=? n) && (n <=? 57))%nat then Some (n - 48)%nat else None.

(** Reads the longest prefix of decimal digits of [s] into the accumulator;
    returns it with the number of digits read and the rest of the string. *)
Fixpoint readDigits (s : string) (acc : nat) (count : nat) : nat * nat * string :=
  match s with
  | String c r =>
      match digitValue c with
      | Some d => readDigits r (10 * acc + d)%nat (S count)
      | None => (acc, count, s)
      end
  | EmptyString => (acc, count, s)
  end.

(** The host function [parseInt(value, 10)] on a string of ASCII characters:
    leading white space is skipped, one sign is accepted, then the longest
    prefix of decimal digits is read and whatever follows is ignored; no
    digit at all gives NaN ([None]). *)
Definition parseInt (value : string) : option Z :=
  let unsigned (s : string) : option Z :=
    match readDigits s 0%nat 0%nat with
    | (_, O, _) => None
    | (n, _, _) => Some (Z.of_nat n)
    end in
  match trimStart value with
  | String "-"%char r => option_map Z.opp (unsigned r)
  | String "+"%char r => unsigned r
  | s => unsigned s
  end.

Definition setField (field : SettingsKey) (v : Z) (prev : PomodoroSettings)
    : PomodoroSettings :=
  match field with
  | KeyWork =>
      {| work := v; shortBreak := shortBreak prev;
         longBreak := longBreak prev; cycles := cycles prev |}
  | KeyShortBreak =>
      {| work := work prev; shortBreak := v;
         longBreak := longBreak prev; cycles := cycles prev |}
  | KeyLongBreak =>
      {| work := work prev; shortBreak := shortBreak prev;
         longBreak := v; cycles := cycles prev |}
  | KeyCycles =>
      {| work := work prev; shortBreak := shortBreak prev;
         longBreak := longBreak prev; cycles := v |}
  end.

Definition getField (field : SettingsKey) (p : PomodoroSettings) : Z :=
  match field with
  | KeyWork => work p
  | KeyShortBreak => shortBreak p
  | KeyLongBreak => longBreak p
  | KeyCycles => cycles p
  end.

(** [handleSettingsChange] (lines 136-141): [!isNaN(numValue) && numValue > 0]. *)
Definition handleSettingsChange (field : SettingsKey) (value : string)
    (s : AppState) : AppState :=
  match parseInt value with
  | Some numValue =>
      if numValue >? 0 then
        setPomodoroSettings (setField field numValue (pomodoroSettings s)) s
      else s
  | None => s
  end.

(** ** Host date functions

    [parseTaskDateTime] and [handleEventDrop] call the host's [Date]
    constructor, [toLocaleDateString] and [toLocaleTimeString]; [handleSyncNow]
    calls [getDate] and [setDate].  A [Date] is its time value, the number of
    milliseconds since the epoch.  The host's time zone is taken to be UTC,
    without daylight saving. *)

Definition msPerMinute : Z := 60000.
Definition msPerHour : Z := 3600000.
Definition msPerDay : Z := 86400000.

(** Day number and time within the day of a time value. *)
Definition Day (t : Z) : Z := t / msPerDay.
Definition TimeWithinDay (t : Z) : Z := t mod msPerDay.

(** Year, month (1 to 12) and day of the month of a day number, in the
    proleptic Gregorian calendar; years are counted from March in 400-year
    eras of 146097 days. *)
Definition civilFromDays (z : Z) : Z * Z * Z :=
  let z' := z + 719468 in
  let era := z' / 146097 in
  let doe := z' mod 146097 in
  let yoe := (doe - doe / 1460 + doe / 36524 - doe / 146096) / 365 in
  let doy := doe - (365 * yoe + yoe / 4 - yoe / 100) in
  let mp := (5 * doy + 2) / 153 in
  let d := doy - (153 * mp + 2) / 5 + 1 in
  let m := if mp <? 10 then mp + 3 else mp - 9 in
  (yoe + era * 400 + (if m <=? 2 then 1 else 0), m, d).

(** The day number of a year, month and day of the month.  It is linear in
    the day, so a day past the end of the month falls in the months after. *)
Definition daysFromCivil (y m d : Z) : Z :=
  let y' := if m <=? 2 then y - 1 else y in
  let era := y' / 400 in
  let yoe := y' mod 400 in
  let doy := (153 * (if m >? 2 then m - 3 else m + 9) + 2) / 5 + d - 1 in
  let doe := yoe * 365 + yoe / 4 - yoe / 100 + doy in
  era * 146097 + doe - 719468.

Definition isLeapYear (y : Z) : bool :=
  ((y mod 4 =? 0) && negb (y mod 100 =? 0)) || (y mod 400 =? 0).

Definition daysInMonth (y m : Z) : Z :=
  if m =? 2 then (if isLeapYear y then 29 else 28)
  else if (m =? 4) || (m =? 6) || (m =? 9) || (m =? 11) then 30
  else 31.

Definition monthNames : list string :=
  ["January"; "February"; "March"; "April"; "May"; "June"; "July";
   "August"; "September"; "October"; "November"; "December"]%string.

Definition monthName (m : Z) : string :=
  nth (Z.to_nat (m - 1)) monthNames EmptyString.

(** Decimal digits of a natural number, without leading zeros. *)
Definition showNat (n : nat) : string :=
  DecimalString.NilEmpty.string_of_uint (Nat.to_uint n).

Definition showZ (n : Z) : string := showNat (Z.to_nat n).

(** [d.getDate()] and [d.setDate(day)]. *)
Definition getDate (t : Z) : Z :=
  let '(_, _, d) := civilFromDays (Day t) in d.

Definition setDate (t : Z) (day : Z) : Z :=
  let '(y, m, _) := civilFromDays (Day t) in
  daysFromCivil y m day * msPerDay + TimeWithinDay t.

(** Modelled from the spec: the host function
    [toLocaleDateString('en-US', { month: 'long', day: 'numeric', year: 'numeric' })],
    which is not part of the repository; the spec gives its output as
    "Month Day, Year" with the long month name. *)
Definition toLocaleDateString (t : Z) : string :=
  let '(y, m, d) := civilFromDays (Day t) in
  (monthName m ++ " " ++ showZ d ++ ", " ++ showZ y)%string.

(** Modelled from the spec: the host function
    [toLocaleTimeString('en-US', { hour: 'numeric', minute: '2-digit', hour12: true })],
    which is not part of the repository; the spec gives its output as
    "H:MM AM/PM", 12-hour with no leading zero on the hour. *)
Definition toLocaleTimeString (t : Z) : string :=
  let h := TimeWithinDay t / msPerHour in
  let mi := (TimeWithinDay t mod msPerHour) / msPerMinute in
  let h12 := if h mod 12 =? 0 then 12 else h mod 12 in
  (showZ h12 ++ ":" ++ (if (mi <? 10)%Z then "0" else EmptyString) ++ showZ mi
     ++ " " ++ (if (h <? 12)%Z then "AM" else "PM"))%string.

Fixpoint stripPrefix (p s : string) : option string :=
  match p with
  | EmptyString => Some s
  | String a p' =>
      match s with
      | String b s' => if Ascii.eqb a b then stripPrefix p' s' else None
      | EmptyString => None
      end
  end.

Fixpoint findMonth (names : list string) (m : Z) (s : string)
    : option (Z * string) :=
  match names with
  | [] => None
  | name :: rest =>
      match stripPrefix name s with
      | Some r => Some (m, r)
      | None => findMonth rest (m + 1) s
      end
  end.

Definition bindOpt {A B : Type} (o : option A) (k : A -> option B) : option B :=
  match o with
  | Some a => k a
  | None => None
  end.

Notation "x <- o ;; k" := (bindOpt o (fun x => k))
  (at level 61, o at next level, right associativity).

Definition readNumber (s : string) : option (Z * string) :=
  match readDigits s 0%nat 0%nat with
  | (_, O, _) => None
  | (n, _, r) => Some (Z.of_nat n, r)
  end.

(** The clock part of a date string, after the date: nothing (midnight), or
    " H:MM AM" or " H:MM PM". *)
Definition parseClock (s : string) : option Z :=
  match s with
  | EmptyString => Some 0
  | _ =>
      r <- stripPrefix " " s ;;
      hr <- readNumber r ;;
      r <- stripPrefix ":" (snd hr) ;;
      mr <- readNumber r ;;
      r <- stripPrefix " " (snd mr) ;;
      let h := fst hr in
      let mi := fst mr in
      if (1 <=? h) && (h <=? 12) && (mi <=? 59) then
        if String.eqb r "AM" then Some ((h mod 12) * msPerHour + mi * msPerMinute)
        else if String.eqb r "PM" then Some ((h mod 12 + 12) * msPerHour + mi * msPerMinute)
        else None
      else None
  end.

(** Modelled from the spec: the time value of [new Date(dateTimeString)],
    the host's parsing of date strings, which is not part of the repository.
    It reads the textual form that the two functions above write, a date
    "Month Day, Year" optionally followed by a time "H:MM AM/PM"; a string
    that does not have this form, or that names a day the month does not
    have (the spec's "February 30, 2024"), gives an invalid date ([None],
    for which [getTime()] is NaN). *)
Definition parseDate (dateTimeString : string) : option Z :=
  mr <- findMonth monthNames 1 dateTimeString ;;
  r <- stripPrefix " " (snd mr) ;;
  dr <- readNumber r ;;
  r <- stripPrefix ", " (snd dr) ;;
  yr <- readNumber r ;;
  let m := fst mr in
  let d := fst dr in
  let y := fst yr in
  if (1 <=? d) && (d <=? daysInMonth y m) then
    c <- parseClock (snd yr) ;;
    Some (daysFromCivil y m d * msPerDay + c)
  else None.

(** ** Date/time reconciliation (lines 250-269 and 317-326) *)

Definition isEmpty (s : string) : bool :=
  match s with
  | EmptyString => true
  | _ => false
  end.

(** [parseTaskDateTime] (lines 317-326).  An empty string is falsy, for the
    date as for the time. *)
Definition parseTaskDateTime (task : ParsedTask) : option Z :=
  if isEmpty (date task) then None
  else
    let dateTimeString :=
      match time task with
      | Some tm => if isEmpty tm then date task else (date task ++ " " ++ tm)%string
      | None => date task
      end in
    parseDate dateTimeString.

(** The task written by [handleEventDrop] for the dropped event
    (lines 257-265). *)
Definition rescheduledTask (newStartDate : Z) (allDay : bool) (task : ParsedTask)
    : ParsedTask :=
  {| id := id task;
     taskName := taskName task;
     date := toLocaleDateString newStartDate;
     time := if allDay then None else Some (toLocaleTimeString newStartDate);
     category := category task;
     priority := priority task;
     status := status task;
     source := source task |}.

(** [handleEventDrop] (lines 250-269); [eventId] is [Number(event.id)]. *)
Definition handleEventDrop (eventId : Z) (newStartDate : Z) (allDay : bool)
    (s : AppState) : AppState :=
  setTasks
    (map (fun task =>
            if id task =? eventId then rescheduledTask newStartDate allDay task
            else task)
         (tasks s)) s.

(** ** The task store (lines 212-315) *)

Definition Status_eqb (a b : Status) : bool :=
  match a, b with
  | active, active | completed, completed => true
  | _, _ => false
  end.

Definition Source_eqb (a b : Source) : bool :=
  match a, b with
  | lucid, lucid | google, google => true
  | _, _ => false
  end.

Definition Priority_eqb (a b : Priority) : bool :=
  match a, b with
  | High, High | Medium, Medium | Low, Low => true
  | _, _ => false
  end.

(** [handleAccept] (lines 212-219); [now] is the reading of [Date.now()]. *)
Definition handleAccept (now : Z) (s : AppState) : AppState :=
  match parsedTask s with
  | Some c =>
      let newTask :=
        {| id := now;
           taskName := cTaskName c;
           date := cDate c;
           time := cTime c;
           category := cCategory c;
           priority := cPriority c;
           status := active;
           source := lucid |} in
      setParsedTask None (setTasks (tasks s ++ [newTask]) s)
  | None => s
  end.

Definition toggledTask (task : ParsedTask) : ParsedTask :=
  {| id := id task;
     taskName := taskName task;
     date := date task;
     time := time task;
     category := category task;
     priority := priority task;
     status := match status task with
               | active => completed
               | completed => active
               end;
     source := source task |}.

(** [activeTimer?.taskId === taskId] *)
Definition timerAttachedTo (tid : Z) (s : AppState) : bool :=
  match activeTimer s with
  | Some t => taskId t =? tid
  | None => false
  end.

(** [handleToggleComplete] (lines 239-248). *)
Definition handleToggleComplete (tid : Z) (s : AppState) : AppState :=
  let s' :=
    setTasks
      (map (fun task => if id task =? tid then toggledTask task else task)
           (tasks s)) s in
  if timerAttachedTo tid s then setActiveTimer None s' else s'.

(** [handleConnectGoogleCalendar] (lines 271-273). *)
Definition handleConnectGoogleCalendar (s : AppState) : AppState :=
  setGoogleConnected true s.

(** [handleDisconnectGoogleCalendar] (lines 275-278). *)
Definition handleDisconnectGoogleCalendar (s : AppState) : AppState :=
  setTasks
    (filter (fun task => negb (Source_eqb (source task) google)) (tasks s))
    (setGoogleConnected false s).

(** The clock readings of one run of [handleSyncNow], in the order in which
    the handler takes them: the two [new Date()] of lines 281-282 and the two
    [Date.now()] of lines 287 and 297. *)
Record SyncClock := mkSyncClock {
  todayReading : Z;
  tomorrowReading : Z;
  idReading1 : Z;
  idReading2 : Z
}.

Definition googleEvents (c : SyncClock) : list ParsedTask :=
  let today := todayReading c in
  let tomorrow := setDate (tomorrowReading c) (getDate today + 1) in
  [ {| id := idReading1 c;
       taskName := "Team Standup";
       date := toLocaleDateString today;
       time := Some "10:00 AM"%string;
       category := "Work";
       priority := Medium;
       status := active;
       source := google |};
    {| id := idReading2 c + 1;
       taskName := "Design Review";
       date := toLocaleDateString tomorrow;
       time := Some "2:30 PM"%string;
       category := "Work";
       priority := High;
       status := active;
       source := google |} ].

(** [handleSyncNow] (lines 280-309). *)
Definition handleSyncNow (c : SyncClock) (s : AppState) : AppState :=
  setIsSettingsOpen false
    (setTasks
       (filter (fun t => negb (Source_eqb (source t) google)) (tasks s)
          ++ googleEvents c) s).

(** Lines 311-312. *)
Definition activeTasks (ts : list ParsedTask) : list ParsedTask :=
  filter (fun task => Status_eqb (status task) active) ts.

Definition completedTasks (ts : list ParsedTask) : list ParsedTask :=
  filter (fun task => Status_eqb (status task) completed) ts.

(** Line 314. *)
Definition priorityOrder (p : Priority) : Z :=
  match p with
  | High => 1
  | Medium => 2
  | Low => 3
  end.

(** The host method [Array.prototype.sort(compareFn)], which the language
    requires to be stable: of two elements, the one for which [compareFn]
    is negative comes first, and two elements that compare as equal keep their
    order.  Here as an insertion sort: [x] stood before every element of [l],
    and goes in before the first of them that it does not compare greater
    than. *)
Fixpoint insertSorted {A : Type} (compareFn : A -> A -> Z) (x : A) (l : list A)
    : list A :=
  match l with
  | [] => [x]
  | y :: l' =>
      if compareFn x y <=? 0 then x :: l
      else y :: insertSorted compareFn x l'
  end.

Definition arraySort {A : Type} (compareFn : A -> A -> Z) (l : list A) : list A :=
  fold_right (insertSorted compareFn) [] l.

(** Line 315. *)
Definition sortedActiveTasks (ts : list ParsedTask) : list ParsedTask :=
  arraySort (fun a b => priorityOrder (priority a) - priorityOrder (priority b))
    (activeTasks ts).

(** ** Runs and predicates used by the statements below *)

Definition hasPriority (p : Priority) (task : ParsedTask) : bool :=
  Priority_eqb (priority task) p.

(** A comparator that subtracts the ranks of its arguments, as the one of
    line 315 does with [priorityOrder]. *)
Definition compareByKey {A : Type} (key : A -> Z) (a b : A) : Z := key a - key b.

(** The engine operations a user or the interval can apply to a live timer. *)
Inductive EngineOp := OpTick (how : UpdaterRun) | OpPauseResume | OpSkip.

Definition engineStep (s : AppState) (op : EngineOp) : AppState :=
  match op with
  | OpTick how => tick how s
  | OpPauseResume => handlePauseResumeTimer s
  | OpSkip => handleSkip s
  end.

Definition runEngine (ops : list EngineOp) (s : AppState) : AppState :=
  fold_left engineStep ops s.

(** The two insertions of the store, and the status toggle.  [OpAdd now c]:
    the parsing service returned the candidate [c] (line 201), and the user
    accepted it when the clock read [now].  [OpReplaceExternal c]: "Sync
    Now". *)
Inductive StoreOp :=
| OpAdd (now : Z) (c : Candidate)
| OpReplaceExternal (c : SyncClock)
| OpToggleStatus (tid : Z).

Definition storeStep (s : AppState) (op : StoreOp) : AppState :=
  match op with
  | OpAdd now c => handleAccept now (setParsedTask (Some c) s)
  | OpReplaceExternal c => handleSyncNow c s
  | OpToggleStatus tid => handleToggleComplete tid s
  end.

Definition runStore (ops : list StoreOp) (s : AppState) : AppState :=
  fold_left storeStep ops s.

(** The ids that the adds of a run hand out, in order. *)
Fixpoint addedIds (ops : list StoreOp) : list Z :=
  match ops with
  | [] => []
  | OpAdd now _ :: rest => now :: addedIds rest
  | _ :: rest => addedIds rest
  end.

Definition isAddOrToggle (op : StoreOp) : bool :=
  match op with
  | OpReplaceExternal _ => false
  | _ => true
  end.

Definition positiveDurations (p : PomodoroSettings) : Prop :=
  0 < work p /\ 0 < shortBreak p /\ 0 < longBreak p.

Definition validSettings (p : PomodoroSettings) : Prop :=
  positiveDurations p /\ 0 < cycles p.

Definition idsUnique (ts : list ParsedTask) : Prop := NoDup (map id ts).

(** Every clock reading of a run is later than every id handed out before it:
    [hw] is the largest id so far.  Within one sync the second reading is not
    earlier than the first. *)
Fixpoint clockAhead (hw : Z) (ops : list StoreOp) : Prop :=
  match ops with
  | [] => True
  | OpAdd now _ :: rest => hw < now /\ clockAhead now rest
  | OpReplaceExternal c :: rest =>
      hw < idReading1 c /\ idReading1 c <= idReading2 c /\
      clockAhead (idReading2 c + 1) rest
  | OpToggleStatus _ :: rest => clockAhead hw rest
  end.

(** The invariant of the data model: a timer is attached to a task that is in
    the store and active. *)
Definition attachedToActiveTask (s : AppState) : bool :=
  match activeTimer s with
  | None => true
  | Some t =>
      existsb (fun task => (id task =? taskId t) && Status_eqb (status task) active)
              (tasks s)
  end.

(** The timer after [n] mode transitions in a row. *)
Definition transitions (settings : PomodoroSettings) (n : nat) (t : ActiveTimer)
    : ActiveTimer :=
  Nat.iter n (transitionToNextMode settings) t.

(** The timer that [handleStartTimer] creates. *)
Definition startedTimer (settings : PomodoroSettings) (tid : Z) : ActiveTimer :=
  {| taskId := tid;
     timeLeft := work settings * 60;
     mode := ModeWork;
     cycleCount := 0;
     isPaused := false |}.

(** The string does not go on with a digit. *)
Definition noDigitAhead (s : string) : bool :=
  match s with
  | String c _ => match digitValue c with Some _ => false | None => true end
  | EmptyString => true
  end.

(** The first instant of year 0, the earliest that a date string can name. *)
Definition minTime : Z := daysFromCivil 0 1 1 * msPerDay.

(** ** The rest of the component *)

(** *** Timer display (lines 143-147) *)

(** [n.toString()] of an integer. *)
Definition numberToString (n : Z) : string :=
  if n <? 0 then String "-" (showZ (- n)) else showZ n.

Fixpoint zeros (n : nat) : string :=
  match n with
  | O => EmptyString
  | S n' => String "0" (zeros n')
  end.

(** [s.padStart(targetLength, '0')]: zeros in front, up to the target length. *)
Definition padStart (targetLength : nat) (s : string) : string :=
  (zeros (targetLength - String.length s) ++ s)%string.

(** [formatTime] (lines 143-147).  [Math.floor(seconds / 60)] is the floor
    quotient and [seconds % 60] the remainder with the sign of [seconds]. *)
Definition formatTime (seconds : Z) : string :=
  (padStart 2 (numberToString (seconds / 60)) ++ ":"
     ++ padStart 2 (numberToString (Z.rem seconds 60)))%string.

(** *** Calendar events (lines 328-338) *)

Record CalendarEvent := mkEvent {
  evId : string;
  title : string;
  start : Z;
  allDay : bool;
  className : string
}.

(** [s.toLowerCase()] on ASCII letters. *)
Definition lowerChar (c : ascii) : ascii :=
  let n := nat_of_ascii c in
  if ((65 <=? n) && (n <=? 90))%nat then ascii_of_nat (n + 32) else c.

Fixpoint toLowerCase (s : string) : string :=
  match s with
  | EmptyString => EmptyString
  | String c r => String (lowerChar c) (toLowerCase r)
  end.

(** The string that a priority is in the source. *)
Definition priorityName (p : Priority) : string :=
  match p with
  | High => "High"
  | Medium => "Medium"
  | Low => "Low"
  end.

(** Truthiness of [task.time]: neither [null] nor the empty string. *)
Definition hasTime (task : ParsedTask) : bool :=
  match time task with
  | Some tm => negb (isEmpty tm)
  | None => false
  end.

(** The callback of the [map] in lines 328-338: [null] when the date of the
    task does not parse. *)
Definition calendarEvent (task : ParsedTask) : option CalendarEvent :=
  match parseTaskDateTime task with
  | None => None
  | Some st =>
      Some {| evId := numberToString (id task);
              title := taskName task;
              start := st;
              allDay := negb (hasTime task);
              className :=
                ("category-" ++ toLowerCase (category task) ++ " "
                   ++ (if Source_eqb (source task) google then "google-event"
                       else EmptyString)
                   ++ " priority-" ++ toLowerCase (priorityName (priority task)))%string |}
  end.

(** [.filter(Boolean)] on a list of objects and [null]s. *)
Fixpoint filterBoolean {A : Type} (l : list (option A)) : list A :=
  match l with
  | [] => []
  | Some a :: r => a :: filterBoolean r
  | None :: r => filterBoolean r
  end.

Definition calendarEvents (ts : list ParsedTask) : list CalendarEvent :=
  filterBoolean (map calendarEvent (activeTasks ts)).

(** *** The input form and the candidate card (lines 149-237) *)

(** The cells of [App] that the form handlers use beside those of
    [AppState]. *)
Record FormState := mkForm {
  cells : AppState;
  userInput : string;
  editedTask : option Candidate;
  isEditing : bool;
  isLoading : bool;
  error : option string
}.

Definition initialForm : FormState :=
  {| cells := initialState; userInput := EmptyString; editedTask := None;
     isEditing := false; isLoading := false; error := None |}.

(** [!userInput.trim()]: nothing but white space. *)
Fixpoint isBlank (s : string) : bool :=
  match s with
  | EmptyString => true
  | String c r => isWhiteSpace c && isBlank r
  end.

(** [handleSubmit] up to the [await] (lines 149-155). *)
Definition handleSubmitStart (f : FormState) : FormState :=
  {| cells := setParsedTask None (cells f);
     userInput := userInput f;
     editedTask := editedTask f;
     isEditing := false;
     isLoading := true;
     error := None |}.

(** [handleSubmit] after the [await] (lines 200-209).  [response] is the
    object that [JSON.parse(response.text)] gives, or [None] when the call or
    the parsing throws. *)
Definition handleSubmitFinish (response : option Candidate) (f : FormState)
    : FormState :=
  match response with
  | Some parsedJson =>
      {| cells := setParsedTask (Some parsedJson) (cells f);
         userInput := userInput f;
         editedTask := Some parsedJson;
         isEditing := isEditing f;
         isLoading := false;
         error := error f |}
  | None =>
      {| cells := cells f;
         userInput := userInput f;
         editedTask := editedTask f;
         isEditing := isEditing f;
         isLoading := false;
         error := Some "Sorry, I had trouble understanding that. Please try rephrasing your request."%string |}
  end.

(** [handleSubmit] (lines 149-210) with nothing happening during the call. *)
Definition handleSubmit (response : option Candidate) (f : FormState) : FormState :=
  if isBlank (userInput f) then f
  else handleSubmitFinish response (handleSubmitStart f).

(** The button of line 389 is disabled while loading or on blank input. *)
Definition clickSchedule (response : option Candidate) (f : FormState) : FormState :=
  if isLoading f || isBlank (userInput f) then f else handleSubmit response f.

(** [handleAccept] (lines 212-219) with its last line, [setUserInput('')]. *)
Definition handleAcceptForm (now : Z) (f : FormState) : FormState :=
  {| cells := handleAccept now (cells f);
     userInput := match parsedTask (cells f) with
                  | Some _ => EmptyString
                  | None => userInput f
                  end;
     editedTask := editedTask f;
     isEditing := isEditing f;
     isLoading := isLoading f;
     error := error f |}.

(** [handleCancel] (lines 221-224). *)
Definition handleCancel (f : FormState) : FormState :=
  {| cells := setParsedTask None (cells f);
     userInput := userInput f;
     editedTask := None;
     isEditing := isEditing f;
     isLoading := isLoading f;
     error := error f |}.

(** [handleSaveEdit] (lines 226-231). *)
Definition handleSaveEdit (f : FormState) : FormState :=
  match editedTask f with
  | Some c =>
      {| cells := setParsedTask (Some c) (cells f);
         userInput := userInput f;
         editedTask := editedTask f;
         isEditing := false;
         isLoading := isLoading f;
         error := error f |}
  | None => f
  end.

(** A call of [handleEditChange]: a text field with the text typed, or the
    priority with the option chosen in the select (lines 429-431). *)
Inductive EditChange :=
| EditTaskName (value : string)
| EditDate (value : string)
| EditTime (value : string)
| EditCategory (value : string)
| EditPriority (value : Priority).

Definition applyEdit (e : EditChange) (c : Candidate) : Candidate :=
  match e with
  | EditTaskName v =>
      {| cTaskName := v; cDate := cDate c; cTime := cTime c;
         cCategory := cCategory c; cPriority := cPriority c |}
  | EditDate v =>
      {| cTaskName := cTaskName c; cDate := v; cTime := cTime c;
         cCategory := cCategory c; cPriority := cPriority c |}
  | EditTime v =>
      {| cTaskName := cTaskName c; cDate := cDate c; cTime := Some v;
         cCategory := cCategory c; cPriority := cPriority c |}
  | EditCategory v =>
      {| cTaskName := cTaskName c; cDate := cDate c; cTime := cTime c;
         cCategory := v; cPriority := cPriority c |}
  | EditPriority v =>
      {| cTaskName := cTaskName c; cDate := cDate c; cTime := cTime c;
         cCategory := cCategory c; cPriority := v |}
  end.

(** [handleEditChange] (lines 233-237). *)
Definition handleEditChange (e : EditChange) (f : FormState) : FormState :=
  match editedTask f with
  | Some c =>
      {| cells := cells f;
         userInput := userInput f;
         editedTask := Some (applyEdit e c);
         isEditing := isEditing f;
         isLoading := isLoading f;
         error := error f |}
  | None => f
  end.

(** The Edit button of the card (line 412) and the Cancel button of the edit
    form (line 434): [setIsEditing(true)] and [setIsEditing(false)]. *)
Definition setIsEditing (v : bool) (f : FormState) : FormState :=
  {| cells := cells f;
     userInput := userInput f;
     editedTask := editedTask f;
     isEditing := v;
     isLoading := isLoading f;
     error := error f |}.

(** What the user does with the form and the card. *)
Inductive FormOp :=
| OpType (text : string)
| OpSchedule (response : option Candidate)
| OpStartEdit
| OpEditChange (e : EditChange)
| OpSaveEdit
| OpCancelEdit
| OpCancel
| OpAccept (now : Z).

Definition setUserInput (v : string) (f : FormState) : FormState :=
  {| cells := cells f;
     userInput := v;
     editedTask := editedTask f;
     isEditing := isEditing f;
     isLoading := isLoading f;
     error := error f |}.

Definition formStep (f : FormState) (op : FormOp) : FormState :=
  match op with
  | OpType text => setUserInput text f
  | OpSchedule response => clickSchedule response f
  | OpStartEdit => setIsEditing true f
  | OpEditChange e => handleEditChange e f
  | OpSaveEdit => handleSaveEdit f
  | OpCancelEdit => setIsEditing false f
  | OpCancel => handleCancel f
  | OpAccept now => handleAcceptForm now f
  end.

Definition runForm (ops : list FormOp) (f : FormState) : FormState :=
  fold_left formStep ops f.

Definition isAccept (op : FormOp) : bool :=
  match op with
  | OpAccept _ => true
  | _ => false
  end.

(** *** Predicates for the statements on the rest *)

(** Seconds of the configured length of a mode. *)
Definition modeSeconds (settings : PomodoroSettings) (m : Mode) : Z :=
  match m with
  | ModeWork => work settings * 60
  | ModeShortBreak => shortBreak settings * 60
  | ModeLongBreak => longBreak settings * 60
  end.

(** A run of ticks, one for each element of [hows], which tells how React
    ran the updater of that tick. *)
Definition ticks (hows : list UpdaterRun) (s : AppState) : AppState :=
  fold_left (fun s' how => tick how s') hows s.

(** Every tick of the run had its updater run while the component
    rendered. *)
Definition ticksDuringRender (ops : list EngineOp) : bool :=
  forallb (fun op => match op with OpTick Eagerly => false | _ => true end) ops.

Definition isLocal (task : ParsedTask) : bool := Source_eqb (source task) lucid.
Definition isExternal (task : ParsedTask) : bool := Source_eqb (source task) google.

(** What holds of a timer started for [tid] under fixed [settings], whatever
    is done with it: it stays with its task, it has between one second and
    the full length of its mode left, and it is in the long break exactly
    after a multiple of [cycles] work intervals. *)
Definition engineInvariant (settings : PomodoroSettings) (tid : Z) (t : ActiveTimer)
    : Prop :=
  taskId t = tid
  /\ 0 <= cycleCount t
  /\ 1 <= timeLeft t <= modeSeconds settings (mode t)
  /\ (mode t = ModeLongBreak -> 1 <= cycleCount t /\ cycleCount t mod cycles settings = 0)
  /\ (mode t = ModeShortBreak -> cycleCount t mod cycles settings <> 0).

(** * Theorems *)

(** ** Focus-cycle engine *)

Lemma js_rem_zero_iff (a b : Z) :
  b <> 0 -> (is_zero (js_rem a b) = true <-> a mod b = 0).
Proof.
  intros Hb. unfold js_rem, is_zero.
  destruct (Z.eqb_spec b 0) as [->|_]; [contradiction|].
  rewrite Z.eqb_eq.
  rewrite Z.rem_divide, Z.mod_divide by assumption.
  reflexivity.
Qed.

Lemma handleStartTimer_timer (tid : Z) (s : AppState) :
  activeTimer (handleStartTimer tid s) = Some (startedTimer (pomodoroSettings s) tid).
Proof. reflexivity. Qed.

(** C1: [start(B)] is the click on the Start button in the row of task [B],
    the only call of [handleStartTimer] (line 486).  While a timer is active
    for a task [A] other than [B] the button is disabled, which is how the
    start is refused: the click changes nothing, so the timer keeps its
    [taskId], [timeLeft], [mode], [cycleCount] and [isPaused].  With no timer
    active the button is enabled and the click always installs the timer
    [{taskId = B, timeLeft = work*60, mode = work, cycleCount = 0,
      isPaused = false}], touching neither the store nor the settings. *)
Theorem start_refused_while_timer_active (b : Z) (s : AppState) :
  (forall t : ActiveTimer,
     activeTimer s = Some t -> b <> taskId t ->
     startButtonDisabled s = true
     /\ clickStartTimer b s = s
     /\ activeTimer (clickStartTimer b s) = Some t)
  /\ (activeTimer s = None ->
      startButtonDisabled s = false
      /\ activeTimer (clickStartTimer b s)
          = Some {| taskId := b;
                    timeLeft := work (pomodoroSettings s) * 60;
                    mode := ModeWork;
                    cycleCount := 0;
                    isPaused := false |}
      /\ tasks (clickStartTimer b s) = tasks s
      /\ pomodoroSettings (clickStartTimer b s) = pomodoroSettings s).
Proof.
  unfold clickStartTimer, startButtonDisabled. split.
  - intros t Ht _. rewrite Ht. auto.
  - intros Hn. rewrite Hn. repeat split.
Qed.

Lemma start_refused_while_timer_active_witness :
  let t := {| taskId := 1; timeLeft := 700; mode := ModeShortBreak;
              cycleCount := 2; isPaused := true |} in
  let s := setActiveTimer (Some t) initialState in
  (startButtonDisabled s = true
   /\ clickStartTimer 2 s = s
   /\ activeTimer (clickStartTimer 2 s) = Some t)
  /\ activeTimer (clickStartTimer 2 initialState)
     = Some {| taskId := 2; timeLeft := 1500; mode := ModeWork;
               cycleCount := 0; isPaused := false |}.
Proof.
  intros t s. split.
  - apply (proj1 (start_refused_while_timer_active 2 s) t eq_refl). cbn. lia.
  - exact (proj1 (proj2 (proj2 (start_refused_while_timer_active 2 initialState)
                           eq_refl))).
Defined.

Section Transition.

Variable settings : PomodoroSettings.
Hypothesis cycles_nonzero : cycles settings <> 0.

Lemma transition_work_long (t : ActiveTimer) :
  mode t = ModeWork -> (cycleCount t + 1) mod cycles settings = 0 ->
  transitionToNextMode settings t
    = {| taskId := taskId t; timeLeft := longBreak settings * 60;
         mode := ModeLongBreak; cycleCount := cycleCount t + 1;
         isPaused := isPaused t |}.
Proof.
  intros Hm Hz. unfold transitionToNextMode. rewrite Hm.
  apply (js_rem_zero_iff _ _ cycles_nonzero) in Hz. now rewrite Hz.
Qed.

Lemma transition_work_short (t : ActiveTimer) :
  mode t = ModeWork -> (cycleCount t + 1) mod cycles settings <> 0 ->
  transitionToNextMode settings t
    = {| taskId := taskId t; timeLeft := shortBreak settings * 60;
         mode := ModeShortBreak; cycleCount := cycleCount t + 1;
         isPaused := isPaused t |}.
Proof.
  intros Hm Hz. unfold transitionToNextMode. rewrite Hm.
  destruct (is_zero (js_rem (cycleCount t + 1) (cycles settings))) eqn:E;
    [|reflexivity].
  apply (js_rem_zero_iff _ _ cycles_nonzero) in E. contradiction.
Qed.

Lemma transition_break (t : ActiveTimer) :
  mode t <> ModeWork ->
  transitionToNextMode settings t
    = {| taskId := taskId t; timeLeft := work settings * 60;
         mode := ModeWork; cycleCount := cycleCount t;
         isPaused := isPaused t |}.
Proof.
  intros Hm. unfold transitionToNextMode.
  destruct (mode t); [contradiction | reflexivity | reflexivity].
Qed.

(** After an even number of transitions from the start the engine is back
    in a work interval, and has completed half as many. *)
Lemma transitions_even (tid : Z) (j : nat) :
  mode (transitions settings (2 * j) (startedTimer settings tid)) = ModeWork
  /\ cycleCount (transitions settings (2 * j) (startedTimer settings tid))
       = Z.of_nat j.
Proof.
  induction j as [|j [IHm IHc]].
  - split; reflexivity.
  - replace (2 * S j)%nat with (S (S (2 * j))) by lia.
    unfold transitions in *. rewrite !Nat.iter_succ.
    set (w := Nat.iter (2 * j) (transitionToNextMode settings)
                (startedTimer settings tid)) in *.
    assert (Hb : mode (transitionToNextMode settings w) <> ModeWork
                 /\ cycleCount (transitionToNextMode settings w) = Z.of_nat (S j)).
    { destruct (Z.eq_dec ((cycleCount w + 1) mod cycles settings) 0) as [E|E].
      - rewrite (transition_work_long w IHm E). cbn [mode cycleCount]. split; [discriminate|lia].
      - rewrite (transition_work_short w IHm E). cbn [mode cycleCount]. split; [discriminate|lia]. }
    destruct Hb as [Hb1 Hb2].
    rewrite (transition_break _ Hb1). cbn [mode cycleCount]. split; [reflexivity|exact Hb2].
Qed.

(** The [k]-th completed work interval ends in the long break exactly when
    [k] is a multiple of [cycles]. *)
Lemma kth_work_completion (tid : Z) (k : nat) :
  (1 <= k)%nat ->
  let b := transitions settings (2 * k - 1) (startedTimer settings tid) in
  cycleCount b = Z.of_nat k
  /\ (Z.of_nat k mod cycles settings = 0 -> mode b = ModeLongBreak)
  /\ (Z.of_nat k mod cycles settings <> 0 -> mode b = ModeShortBreak).
Proof.
  intros Hk. cbv zeta.
  replace (2 * k - 1)%nat with (S (2 * (k - 1))) by lia.
  unfold transitions. rewrite Nat.iter_succ.
  destruct (transitions_even tid (k - 1)) as [Hm Hc].
  unfold transitions in Hm, Hc.
  set (w := Nat.iter (2 * (k - 1)) (transitionToNextMode settings)
              (startedTimer settings tid)) in *.
  assert (Hk' : cycleCount w + 1 = Z.of_nat k) by lia.
  cbv zeta.
  destruct (Z.eq_dec ((cycleCount w + 1) mod cycles settings) 0) as [E|E].
  - rewrite (transition_work_long w Hm E). cbn [mode cycleCount].
    rewrite <- Hk'. repeat split; intros; solve [reflexivity | contradiction].
  - rewrite (transition_work_short w Hm E). cbn [mode cycleCount].
    rewrite <- Hk'. repeat split; intros; solve [reflexivity | contradiction].
Qed.

End Transition.

(** C2: a transition out of [work] adds 1 to [cycleCount], goes to
    [longBreak] when the new count is a multiple of [cycles] and to
    [shortBreak] otherwise, and sets [timeLeft] to the minutes of the chosen
    mode times 60; a transition out of either break goes to [work] with
    [timeLeft = work*60] and the same [cycleCount].  Hence, counted from the
    start of a timer, the [k]-th completed work interval ends in [longBreak]
    exactly when [k] is a multiple of [cycles], the [cycles]-th one does,
    and the others end in [shortBreak]. *)
Theorem transition_rule (settings : PomodoroSettings) (t : ActiveTimer) :
  validSettings settings ->
  let t' := transitionToNextMode settings t in
  (mode t = ModeWork ->
     cycleCount t' = cycleCount t + 1
     /\ ((cycleCount t + 1) mod cycles settings = 0 ->
           mode t' = ModeLongBreak /\ timeLeft t' = longBreak settings * 60)
     /\ ((cycleCount t + 1) mod cycles settings <> 0 ->
           mode t' = ModeShortBreak /\ timeLeft t' = shortBreak settings * 60))
  /\ (mode t <> ModeWork ->
        mode t' = ModeWork /\ timeLeft t' = work settings * 60
        /\ cycleCount t' = cycleCount t)
  /\ taskId t' = taskId t
  /\ (forall (tid : Z) (k : nat), (1 <= k)%nat ->
        let b := transitions settings (2 * k - 1) (startedTimer settings tid) in
        cycleCount b = Z.of_nat k
        /\ (Z.of_nat k mod cycles settings = 0 -> mode b = ModeLongBreak)
        /\ (Z.of_nat k mod cycles settings <> 0 -> mode b = ModeShortBreak))
  /\ (forall tid : Z,
        mode (transitions settings (2 * Z.to_nat (cycles settings) - 1)
                (startedTimer settings tid)) = ModeLongBreak).
Proof.
  intros [_ Hc] t'. subst t'.
  assert (Hnz : cycles settings <> 0) by lia.
  split; [|split; [|split; [|split]]].
  - intros Hm.
    destruct (Z.eq_dec ((cycleCount t + 1) mod cycles settings) 0) as [E|E].
    + rewrite (transition_work_long settings Hnz t Hm E). cbn.
      repeat split; intros; try contradiction; reflexivity.
    + rewrite (transition_work_short settings Hnz t Hm E). cbn.
      repeat split; intros; try contradiction; reflexivity.
  - intros Hm. rewrite (transition_break settings t Hm). cbn. repeat split.
  - unfold transitionToNextMode.
    destruct (mode t); [|reflexivity|reflexivity].
    now destruct (is_zero _).
  - intros tid k Hk. exact (kth_work_completion settings Hnz tid k Hk).
  - intros tid.
    assert (Hk : (1 <= Z.to_nat (cycles settings))%nat) by lia.
    destruct (kth_work_completion settings Hnz tid _ Hk) as (_ & Hl & _).
    apply Hl. rewrite Z2Nat.id by lia. apply Z.mod_same. exact Hnz.
Qed.

Lemma transition_rule_witness :
  let w := {| taskId := 7; timeLeft := 12; mode := ModeWork;
              cycleCount := 3; isPaused := false |} in
  validSettings DEFAULT_SETTINGS
  /\ cycleCount (transitionToNextMode DEFAULT_SETTINGS w) = 4
  /\ mode (transitionToNextMode DEFAULT_SETTINGS w) = ModeLongBreak
  /\ mode (transitions DEFAULT_SETTINGS 7 (startedTimer DEFAULT_SETTINGS 7))
       = ModeLongBreak.
Proof.
  intros w.
  assert (Hv : validSettings DEFAULT_SETTINGS)
    by (unfold validSettings, positiveDurations; cbn; lia).
  destruct (transition_rule DEFAULT_SETTINGS w Hv) as (Hw & _ & _ & _ & Hl).
  destruct (Hw eq_refl) as (Hc & Hlong & _).
  split; [exact Hv|]. split; [exact Hc|]. split.
  - exact (proj1 (Hlong eq_refl)).
  - exact (Hl 7).
Defined.

Lemma transition_isPaused (settings : PomodoroSettings) (t : ActiveTimer) :
  isPaused (transitionToNextMode settings t) = isPaused t.
Proof.
  unfold transitionToNextMode.
  destruct (mode t); [|reflexivity|reflexivity].
  now destruct (is_zero _).
Qed.

(** What one firing of the interval does to a timer that is running: it
    counts down while more than one second is left; at the end of the
    interval the transitioned timer stands when the updater ran during
    render, and no timer stands when it ran eagerly. *)
Lemma tick_running (how : UpdaterRun) (s : AppState) (t : ActiveTimer) :
  activeTimer s = Some t -> isPaused t = false ->
  activeTimer (tick how s)
    = if timeLeft t >? 1
      then Some {| taskId := taskId t; timeLeft := timeLeft t - 1;
                   mode := mode t; cycleCount := cycleCount t;
                   isPaused := isPaused t |}
      else match how with
           | DuringRender => Some (transitionToNextMode (pomodoroSettings s) t)
           | Eagerly => None
           end.
Proof.
  intros Ht Hp.
  unfold tick, intervalRunning, tickUpdater, commitUpdate, updateQueue.
  rewrite Ht, Hp. cbn.
  destruct (timeLeft t >? 1), how; cbn; rewrite ?Hp; reflexivity.
Qed.

Lemma tick_not_running (how : UpdaterRun) (s : AppState) :
  intervalRunning s = false -> tick how s = s.
Proof. intros H. unfold tick. now rewrite H. Qed.

Lemma tick_settings (how : UpdaterRun) (s : AppState) :
  pomodoroSettings (tick how s) = pomodoroSettings s.
Proof. unfold tick. now destruct (intervalRunning s). Qed.

Lemma tick_tasks (how : UpdaterRun) (s : AppState) :
  tasks (tick how s) = tasks s.
Proof. unfold tick. now destruct (intervalRunning s). Qed.

(** C3, as the spec has it, fails: skipping on a paused timer gives a paused
    timer. *)
Lemma skip_keeps_pause_counterexample :
  ~ (forall (s : AppState) (t t' : ActiveTimer),
       activeTimer s = Some t -> activeTimer (handleSkip s) = Some t' ->
       isPaused t' = false).
Proof.
  intros H.
  pose (t := {| taskId := 1; timeLeft := 900; mode := ModeWork;
                cycleCount := 0; isPaused := true |}).
  specialize (H (setActiveTimer (Some t) initialState) t
                (transitionToNextMode DEFAULT_SETTINGS t) eq_refl eq_refl).
  discriminate H.
Qed.

(** C3 (amended): a mode transition leaves [isPaused] as it was.  [skip()]
    on a paused timer gives a paused timer in the next mode, and on a running
    timer a running one.  The countdown runs only while the timer is not
    paused, so a timer that a tick leaves is never paused, and a transition
    made by the countdown gives [isPaused = false]. *)
Theorem transition_preserves_isPaused (s : AppState) (t : ActiveTimer) :
  activeTimer s = Some t ->
  isPaused (transitionToNextMode (pomodoroSettings s) t) = isPaused t
  /\ activeTimer (handleSkip s)
       = Some (transitionToNextMode (pomodoroSettings s) t)
  /\ (isPaused t = true -> forall how, tick how s = s)
  /\ (isPaused t = false ->
      (forall how t', activeTimer (tick how s) = Some t' -> isPaused t' = false)
      /\ (timeLeft t <= 1 ->
            activeTimer (tick DuringRender s)
              = Some (transitionToNextMode (pomodoroSettings s) t)
            /\ isPaused (transitionToNextMode (pomodoroSettings s) t) = false)).
Proof.
  intros Ht. split; [apply transition_isPaused|]. split; [|split].
  - unfold handleSkip. now rewrite Ht.
  - intros Hp how. apply tick_not_running. unfold intervalRunning.
    now rewrite Ht, Hp.
  - intros Hp. split.
    + intros how t'. rewrite (tick_running how s t Ht Hp).
      destruct (timeLeft t >? 1).
      * intros [= <-]. exact Hp.
      * destruct how; [|discriminate].
        intros [= <-]. now rewrite transition_isPaused.
    + intros Hle. rewrite (tick_running DuringRender s t Ht Hp).
      destruct (Z.gtb_spec (timeLeft t) 1); [lia|].
      split; [reflexivity|]. now rewrite transition_isPaused.
Qed.

Lemma transition_preserves_isPaused_witness :
  let paused := {| taskId := 1; timeLeft := 900; mode := ModeWork;
                   cycleCount := 0; isPaused := true |} in
  let ending := {| taskId := 1; timeLeft := 1; mode := ModeWork;
                   cycleCount := 0; isPaused := false |} in
  (exists t', activeTimer (handleSkip (setActiveTimer (Some paused) initialState))
                = Some t' /\ isPaused t' = true)
  /\ (exists t', activeTimer (tick DuringRender
                                (setActiveTimer (Some ending) initialState))
                = Some t' /\ isPaused t' = false).
Proof.
  intros paused ending. split.
  - destruct (transition_preserves_isPaused
                (setActiveTimer (Some paused) initialState) paused eq_refl)
      as (Hp & Hs & _).
    eexists. split; [exact Hs | exact Hp].
  - destruct (transition_preserves_isPaused
                (setActiveTimer (Some ending) initialState) ending eq_refl)
      as (_ & _ & _ & Ht).
    assert (Hle : timeLeft ending <= 1) by (cbn; lia).
    destruct (proj2 (Ht eq_refl) Hle) as [H1 H2].
    eexists. split; [exact H1 | exact H2].
Defined.



(** C4: the tick that ends an interval does not always make the mode
    transition.  On a running timer with one second left, under the default
    settings, the tick whose updater React runs eagerly leaves no timer: the
    updater's [null] is applied after the timer that [transitionToNextMode]
    set.  The tick whose updater runs during render leaves the timer of the
    first break. *)
Theorem tick_at_end_of_interval_can_drop_timer :
  let t := {| taskId := 1; timeLeft := 1; mode := ModeWork;
              cycleCount := 0; isPaused := false |} in
  let s := setActiveTimer (Some t) initialState in
  tickUpdater (pomodoroSettings s) (activeTimer s)
    = (None, [Some (transitionToNextMode DEFAULT_SETTINGS t)])
  /\ activeTimer (tick Eagerly s) = None
  /\ activeTimer (tick DuringRender s)
       = Some {| taskId := 1; timeLeft := 300; mode := ModeShortBreak;
                 cycleCount := 1; isPaused := false |}.
Proof. repeat split. Qed.

(** Engine operations keep the settings. *)
Lemma engineStep_settings (s : AppState) (op : EngineOp) :
  pomodoroSettings (engineStep s op) = pomodoroSettings s.
Proof.
  destruct op; cbn [engineStep].
  - apply tick_settings.
  - reflexivity.
  - unfold handleSkip. now destruct (activeTimer s).
Qed.

Lemma runEngine_settings (ops : list EngineOp) (s : AppState) :
  pomodoroSettings (runEngine ops s) = pomodoroSettings s.
Proof.
  revert s. induction ops as [|op ops IH]; intros s; [reflexivity|].
  cbn [runEngine fold_left]. fold (runEngine ops (engineStep s op)).
  now rewrite IH, engineStep_settings.
Qed.

(** With no timer, an engine operation installs none. *)
Lemma engineStep_no_timer (s : AppState) (op : EngineOp) :
  activeTimer s = None -> engineStep s op = s.
Proof.
  intros Hn. destruct op; cbn [engineStep].
  - apply tick_not_running. unfold intervalRunning. now rewrite Hn.
  - unfold handlePauseResumeTimer. rewrite Hn, <- Hn. now destruct s.
  - unfold handleSkip. now rewrite Hn.
Qed.

Lemma runEngine_no_timer (ops : list EngineOp) (s : AppState) :
  activeTimer s = None -> runEngine ops s = s.
Proof.
  intros Hn. induction ops as [|op ops IH]; [reflexivity|].
  cbn [runEngine fold_left]. rewrite (engineStep_no_timer s op Hn). exact IH.
Qed.



(** An operation other than a tick whose updater runs eagerly keeps a live
    timer alive. *)
Lemma engineStep_live (s : AppState) (op : EngineOp) (t : ActiveTimer) :
  ticksDuringRender [op] = true -> activeTimer s = Some t ->
  exists t', activeTimer (engineStep s op) = Some t'.
Proof.
  intros Hop Ht. destruct op as [how| |]; cbn [engineStep].
  - destruct how; [|discriminate Hop].
    destruct (isPaused t) eqn:Hp.
    + rewrite tick_not_running by (unfold intervalRunning; now rewrite Ht, Hp).
      now exists t.
    + rewrite (tick_running DuringRender s t Ht Hp).
      destruct (timeLeft t >? 1); eexists; reflexivity.
  - unfold handlePauseResumeTimer. rewrite Ht. eexists; reflexivity.
  - unfold handleSkip. rewrite Ht. eexists; reflexivity.
Qed.

Lemma runEngine_live (ops : list EngineOp) (s : AppState) (t : ActiveTimer) :
  ticksDuringRender ops = true -> activeTimer s = Some t ->
  exists t', activeTimer (runEngine ops s) = Some t'.
Proof.
  revert s t. induction ops as [|op ops IH]; intros s t Hops Ht.
  - now exists t.
  - cbn [runEngine fold_left]. fold (runEngine ops (engineStep s op)).
    unfold ticksDuringRender in Hops. cbn [forallb] in Hops.
    apply andb_true_iff in Hops as [Hop Hops].
    destruct (engineStep_live s op t) as [t1 Ht1]; [|exact Ht|].
    + unfold ticksDuringRender. cbn [forallb]. now rewrite Hop.
    + exact (IH (engineStep s op) t1 Hops Ht1).
Qed.



(** ** Settings *)

Lemma setField_valid (field : SettingsKey) (n : Z) (p : PomodoroSettings) :
  0 < n -> validSettings p -> validSettings (setField field n p).
Proof.
  intros Hn ((Hw & Hs & Hl) & Hc).
  destruct field; unfold validSettings, positiveDurations; cbn; auto.
Qed.

Lemma getField_setField (field : SettingsKey) (n : Z) (p : PomodoroSettings) :
  getField field (setField field n p) = n.
Proof. now destruct field. Qed.

(** [parseInt] reads a leading integer and ignores what follows it. *)
Example parseInt_examples :
  parseInt "30" = Some 30 /\ parseInt "  +7" = Some 7 /\ parseInt "-5" = Some (-5)
  /\ parseInt "0" = Some 0 /\ parseInt "12abc" = Some 12 /\ parseInt "2.5" = Some 2
  /\ parseInt EmptyString = None /\ parseInt "abc" = None /\ parseInt "-" = None.
Proof. repeat split. Qed.

(** C9: an input for which [parseInt] gives NaN (no number) or a value that
    is not positive leaves the whole state, the settings among its cells, as
    it was; an input that parses to a positive integer [n] stores [n] in the
    field and changes nothing else; so a changed state comes only from a
    positive integer.  The handler is a total function: no input makes it
    fail.  Settings that were positive stay positive. *)
Theorem settings_change_rejects_bad_input
    (field : SettingsKey) (value : string) (s : AppState) :
  (parseInt value = None -> handleSettingsChange field value s = s)
  /\ (forall n, parseInt value = Some n -> n <= 0 ->
        handleSettingsChange field value s = s)
  /\ (forall n, parseInt value = Some n -> 0 < n ->
        handleSettingsChange field value s
          = setPomodoroSettings (setField field n (pomodoroSettings s)) s
        /\ getField field (pomodoroSettings (handleSettingsChange field value s)) = n)
  /\ (handleSettingsChange field value s <> s ->
        exists n, parseInt value = Some n /\ 0 < n)
  /\ (validSettings (pomodoroSettings s) ->
        validSettings (pomodoroSettings (handleSettingsChange field value s))).
Proof.
  unfold handleSettingsChange.
  destruct (parseInt value) as [n|].
  - destruct (Z.gtb_spec n 0) as [Hgt|Hle].
    + split; [discriminate|]. split; [intros m [= <-]; lia|].
      split; [intros m [= <-] _; split; [reflexivity|cbn; apply getField_setField]|].
      split; [intros _; now exists n|].
      intros Hv. cbn. now apply setField_valid.
    + split; [reflexivity|]. split; [reflexivity|].
      split; [intros m [= <-]; lia|].
      split; [intros H; now contradiction H|]. auto.
  - split; [reflexivity|]. split; [discriminate|]. split; [discriminate|].
    split; [intros H; now contradiction H|]. auto.
Qed.

Lemma settings_change_rejects_bad_input_witness :
  handleSettingsChange KeyWork "abc" initialState = initialState
  /\ handleSettingsChange KeyWork EmptyString initialState = initialState
  /\ handleSettingsChange KeyCycles "-3" initialState = initialState
  /\ handleSettingsChange KeyCycles "0" initialState = initialState
  /\ work (pomodoroSettings (handleSettingsChange KeyWork "50" initialState)) = 50
  /\ validSettings (pomodoroSettings (handleSettingsChange KeyWork "50" initialState))
  /\ (exists n, parseInt "50" = Some n /\ 0 < n).
Proof.
  assert (Hv : validSettings (pomodoroSettings initialState))
    by (unfold validSettings, positiveDurations; cbn; lia).
  split; [exact (proj1 (settings_change_rejects_bad_input KeyWork "abc" initialState) eq_refl)|].
  split; [exact (proj1 (settings_change_rejects_bad_input KeyWork EmptyString initialState) eq_refl)|].
  split.
  { refine (proj1 (proj2 (settings_change_rejects_bad_input KeyCycles "-3" initialState))
              (-3) eq_refl _). lia. }
  split.
  { refine (proj1 (proj2 (settings_change_rejects_bad_input KeyCycles "0" initialState))
              0 eq_refl _). lia. }
  split.
  { refine (proj2 (proj1 (proj2 (proj2
              (settings_change_rejects_bad_input KeyWork "50" initialState)))
              50 eq_refl _)). lia. }
  split.
  { exact (proj2 (proj2 (proj2 (proj2
             (settings_change_rejects_bad_input KeyWork "50" initialState)))) Hv). }
  apply (proj1 (proj2 (proj2 (proj2
           (settings_change_rejects_bad_input KeyWork "50" initialState))))).
  intros H. apply (f_equal (fun s => work (pomodoroSettings s))) in H.
  discriminate H.
Defined.

(** ** Task store: ordering *)

Section SortByKey.

Context {A : Type} (key : A -> Z).

Lemma insertSorted_perm (x : A) (l : list A) :
  Permutation (insertSorted (compareByKey key) x l) (x :: l).
Proof.
  induction l as [|y l IH]; cbn; [reflexivity|].
  destruct (compareByKey key x y <=? 0); [reflexivity|].
  rewrite IH. apply perm_swap.
Qed.

Lemma arraySort_perm (l : list A) : Permutation (arraySort (compareByKey key) l) l.
Proof.
  induction l as [|x l IH]; cbn; [reflexivity|].
  fold (arraySort (compareByKey key) l). rewrite insertSorted_perm. now constructor.
Qed.

Lemma insertSorted_sorted (x : A) (l : list A) :
  StronglySorted (fun a b => key a <= key b) l ->
  StronglySorted (fun a b => key a <= key b) (insertSorted (compareByKey key) x l).
Proof.
  induction 1 as [|y l Hs IH Hall]; cbn.
  - constructor; constructor.
  - unfold compareByKey at 1. destruct (Z.leb_spec (key x - key y) 0) as [Hle|Hgt].
    + constructor; [now constructor|].
      constructor; [lia|].
      eapply Forall_impl; [|exact Hall]. cbn. intros; lia.
    + constructor; [exact IH|].
      rewrite (insertSorted_perm x l). constructor; [lia|exact Hall].
Qed.

Lemma arraySort_sorted (l : list A) :
  StronglySorted (fun a b => key a <= key b) (arraySort (compareByKey key) l).
Proof.
  induction l as [|x l IH]; cbn; [constructor|].
  now apply insertSorted_sorted.
Qed.

(** Stability: the elements of one key come out in the order they went in. *)
Lemma insertSorted_filter (k : Z) (x : A) (l : list A) :
  filter (fun a => key a =? k) (insertSorted (compareByKey key) x l)
    = filter (fun a => key a =? k) (x :: l).
Proof.
  induction l as [|y l IH]; [reflexivity|].
  cbn [insertSorted]. unfold compareByKey at 1.
  destruct (Z.leb_spec (key x - key y) 0) as [Hle|Hgt]; [reflexivity|].
  cbn [filter] in *. rewrite IH.
  destruct (Z.eqb_spec (key x) k), (Z.eqb_spec (key y) k); try reflexivity; lia.
Qed.

Lemma arraySort_filter (k : Z) (l : list A) :
  filter (fun a => key a =? k) (arraySort (compareByKey key) l)
    = filter (fun a => key a =? k) l.
Proof.
  induction l as [|x l IH]; [reflexivity|].
  cbn [arraySort fold_right]. fold (arraySort (compareByKey key) l).
  rewrite insertSorted_filter. cbn [filter]. now rewrite IH.
Qed.

End SortByKey.

Lemma hasPriority_key (p : Priority) (l : list ParsedTask) :
  filter (hasPriority p) l
    = filter (fun a => priorityOrder (priority a) =? priorityOrder p) l.
Proof.
  apply filter_ext. intros a. unfold hasPriority.
  now destruct (priority a), p.
Qed.

Lemma filter_lower_priority_nil (p : Priority) (x : ParsedTask) (l : list ParsedTask) :
  Forall (fun y => priorityOrder (priority x) <= priorityOrder (priority y)) l ->
  priorityOrder p < priorityOrder (priority x) ->
  filter (hasPriority p) l = [].
Proof.
  induction 1 as [|y l Hy Hall IH]; intros Hp; [reflexivity|].
  cbn [filter]. unfold hasPriority at 1.
  destruct (Priority_eqb (priority y) p) eqn:E; [exfalso|now apply IH].
  destruct (priority y), p, (priority x); cbn in *; try discriminate; lia.
Qed.

(** A list in priority order is its High tasks, then its Medium tasks, then
    its Low tasks. *)
Lemma sorted_by_priority_split (l : list ParsedTask) :
  StronglySorted
    (fun a b => priorityOrder (priority a) <= priorityOrder (priority b)) l ->
  l = filter (hasPriority High) l ++ filter (hasPriority Medium) l
        ++ filter (hasPriority Low) l.
Proof.
  induction 1 as [|x l Hs IH Hall]; [reflexivity|].
  pose proof (fun p => filter_lower_priority_nil p x l Hall) as Hnone.
  assert (Hx : forall p, hasPriority p x = Priority_eqb (priority x) p)
    by reflexivity.
  cbn [filter]. rewrite !Hx.
  destruct (priority x) eqn:Ex; cbn [Priority_eqb].
  - rewrite <- app_comm_cons. f_equal. exact IH.
  - rewrite (Hnone High) in * by (cbn; lia).
    rewrite app_nil_l in *. rewrite <- app_comm_cons. f_equal. exact IH.
  - rewrite (Hnone High), (Hnone Medium) in * by (cbn; lia).
    rewrite !app_nil_l in *. f_equal. exact IH.
Qed.

Lemma toggle_keeps_positions (tid : Z) (s : AppState) :
  map id (tasks (handleToggleComplete tid s)) = map id (tasks s).
Proof.
  unfold handleToggleComplete.
  destruct (timerAttachedTo tid s); cbn; rewrite map_map; apply map_ext;
    intros task; now destruct (id task =? tid).
Qed.

(** From any store, a run of adds and toggles leaves the tasks that were
    there in their places and puts the added ones behind them, in the order
    of their adding. *)
Lemma adds_and_toggles_keep_order (ops : list StoreOp) (s : AppState) :
  forallb isAddOrToggle ops = true ->
  map id (tasks (runStore ops s)) = map id (tasks s) ++ addedIds ops.
Proof.
  revert s. induction ops as [|op ops IH]; intros s Hops.
  - cbn. now rewrite app_nil_r.
  - cbn [forallb] in Hops. apply andb_true_iff in Hops as [Hop Hops].
    cbn [runStore fold_left]. fold (runStore ops (storeStep s op)).
    rewrite (IH _ Hops). destruct op as [now c|c|tid]; [|discriminate|].
    + cbn. rewrite map_app, <- app_assoc. reflexivity.
    + cbn [storeStep addedIds]. now rewrite toggle_keeps_positions.
Qed.

(** C7: [sortedActiveTasks] holds exactly the active tasks of the store; it
    is ordered by priority, High before Medium before Low, and by nothing
    else: the tasks of one priority stand in the order they have in the
    store.  So it is the active High tasks, then the active Medium tasks,
    then the active Low tasks, each group in store order.  The store order is
    the insertion order: accepting a task puts it last, and toggling a status
    moves nothing, so after any run of adds and toggles the tasks stand in
    the order in which they were added. *)
Theorem sorted_active_tasks_stable (ts : list ParsedTask) :
  (forall task, In task (sortedActiveTasks ts) <-> In task ts /\ status task = active)
  /\ Permutation (sortedActiveTasks ts) (activeTasks ts)
  /\ StronglySorted
       (fun a b => priorityOrder (priority a) <= priorityOrder (priority b))
       (sortedActiveTasks ts)
  /\ (forall p, filter (hasPriority p) (sortedActiveTasks ts)
                = filter (hasPriority p) (activeTasks ts))
  /\ sortedActiveTasks ts
       = filter (hasPriority High) (activeTasks ts)
           ++ filter (hasPriority Medium) (activeTasks ts)
           ++ filter (hasPriority Low) (activeTasks ts)
  /\ (forall (s : AppState) (now : Z) (c : Candidate),
        exists task, tasks (storeStep s (OpAdd now c)) = tasks s ++ [task]
                     /\ id task = now /\ status task = active
                     /\ priority task = cPriority c)
  /\ (forall (s : AppState) (tid : Z),
        map id (tasks (storeStep s (OpToggleStatus tid))) = map id (tasks s))
  /\ (forall (ops : list StoreOp) (s : AppState),
        forallb isAddOrToggle ops = true ->
        map id (tasks (runStore ops s)) = map id (tasks s) ++ addedIds ops).
Proof.
  pose proof (arraySort_perm (fun a => priorityOrder (priority a)) (activeTasks ts))
    as Hperm.
  pose proof (arraySort_sorted (fun a => priorityOrder (priority a)) (activeTasks ts))
    as Hsorted.
  assert (Hstable : forall p, filter (hasPriority p) (sortedActiveTasks ts)
                              = filter (hasPriority p) (activeTasks ts)).
  { intros p. rewrite !hasPriority_key.
    apply (arraySort_filter (fun a => priorityOrder (priority a))). }
  split; [|split; [exact Hperm|split; [exact Hsorted|split; [exact Hstable|
    split; [|split; [|split; [|exact adds_and_toggles_keep_order]]]]]]].
  - intros task. split.
    + intros Hin. apply (Permutation_in _ Hperm) in Hin.
      unfold activeTasks in Hin. apply filter_In in Hin as [Hin Hst].
      split; [exact Hin|]. now destruct (status task).
    + intros [Hin Hst]. apply (Permutation_in _ (Permutation_sym Hperm)).
      unfold activeTasks. apply filter_In. split; [exact Hin|]. now rewrite Hst.
  - rewrite (sorted_by_priority_split _ Hsorted) at 1. now rewrite !Hstable.
  - intros s now c. eexists. cbn. split; [reflexivity|]. repeat split.
  - intros s tid. apply toggle_keeps_positions.
Qed.

(** Five tasks, one of them completed: the two Medium tasks keep their order. *)
Example sorted_active_tasks_example :
  let task i p st :=
    {| id := i; taskName := "t"; date := "July 26, 2024"; time := None;
       category := "Work"; priority := p; status := st; source := lucid |} in
  map id (sortedActiveTasks
            [task 1 Low active; task 2 High completed; task 3 Medium active;
             task 4 High active; task 5 Medium active])
    = [4; 3; 5; 1].
Proof. reflexivity. Qed.

(** ** Task store: identifiers *)

Lemma NoDup_snoc {A : Type} (l : list A) (x : A) :
  NoDup l -> ~ In x l -> NoDup (l ++ [x]).
Proof.
  intros Hl Hx. apply (Permutation_NoDup (Permutation_cons_append l x)).
  now constructor.
Qed.

Lemma NoDup_map_filter {A B : Type} (f : A -> B) (keep : A -> bool) (l : list A) :
  NoDup (map f l) -> NoDup (map f (filter keep l)).
Proof.
  induction l as [|a l IH]; cbn; [auto|].
  intros Hnd. inversion Hnd as [|? ? Hnotin Hnd']; subst.
  destruct (keep a); cbn; [|auto].
  constructor; [|auto].
  intros Hin. apply Hnotin. apply in_map_iff in Hin as (b & Hb & Hin).
  apply in_map_iff. exists b. split; [exact Hb|].
  now apply filter_In in Hin.
Qed.

Lemma Forall_map_filter {A B : Type} (P : B -> Prop) (f : A -> B)
    (keep : A -> bool) (l : list A) :
  Forall P (map f l) -> Forall P (map f (filter keep l)).
Proof.
  induction l as [|a l IH]; cbn; [auto|].
  intros HF. inversion HF; subst. destruct (keep a); cbn; auto.
Qed.

Lemma below_not_in (hw x : Z) (l : list Z) :
  Forall (fun i => i <= hw) l -> hw < x -> ~ In x l.
Proof.
  intros HF Hlt Hin. rewrite Forall_forall in HF. specialize (HF x Hin). lia.
Qed.

(** One store operation under a clock that is ahead of the ids: the ids stay
    distinct, and stay at or below the new high-water mark. *)
Lemma storeStep_ids (s : AppState) (op : StoreOp) (hw : Z) (rest : list StoreOp) :
  NoDup (map id (tasks s)) ->
  Forall (fun i => i <= hw) (map id (tasks s)) ->
  clockAhead hw (op :: rest) ->
  exists hw',
    NoDup (map id (tasks (storeStep s op)))
    /\ Forall (fun i => i <= hw') (map id (tasks (storeStep s op)))
    /\ clockAhead hw' rest.
Proof.
  intros Hnd Hbound Hclock. destruct op as [now c|c|tid]; cbn in Hclock.
  - destruct Hclock as [Hlt Hrest]. exists now. cbn.
    rewrite map_app. cbn. split; [|split; [|exact Hrest]].
    + apply NoDup_snoc; [exact Hnd|]. eapply below_not_in; eauto.
    + apply Forall_app. split.
      * eapply Forall_impl; [|exact Hbound]. cbn. intros; lia.
      * constructor; [lia|constructor].
  - destruct Hclock as (Hlt & Hle & Hrest). exists (idReading2 c + 1). cbn.
    rewrite map_app. cbn.
    set (kept := map id (filter (fun t => negb (Source_eqb (source t) google)) (tasks s))).
    assert (Hnd' : NoDup kept) by now apply NoDup_map_filter.
    assert (Hb' : Forall (fun i => i <= hw) kept) by now apply Forall_map_filter.
    change (kept ++ [idReading1 c; idReading2 c + 1])
      with (kept ++ [idReading1 c] ++ [idReading2 c + 1]).
    rewrite app_assoc.
    split; [|split; [|exact Hrest]].
    + apply NoDup_snoc; [apply NoDup_snoc; [exact Hnd'|]|].
      * eapply below_not_in; eauto.
      * intros Hin. apply in_app_or in Hin as [Hin|[Hin|[]]]; [|lia].
        revert Hin. eapply below_not_in; [exact Hb'|lia].
    + apply Forall_app. split; [apply Forall_app; split|].
      * eapply Forall_impl; [|exact Hb']. cbn. intros; lia.
      * constructor; [lia|constructor].
      * constructor; [lia|constructor].
  - exists hw. cbn [storeStep]. rewrite toggle_keeps_positions. auto.
Qed.

Lemma runStore_ids (ops : list StoreOp) (s : AppState) (hw : Z) :
  NoDup (map id (tasks s)) ->
  Forall (fun i => i <= hw) (map id (tasks s)) ->
  clockAhead hw ops ->
  NoDup (map id (tasks (runStore ops s))).
Proof.
  revert s hw. induction ops as [|op ops IH]; intros s hw Hnd Hb Hc; [exact Hnd|].
  destruct (storeStep_ids s op hw ops Hnd Hb Hc) as (hw' & Hnd' & Hb' & Hc').
  cbn [runStore fold_left]. exact (IH _ hw' Hnd' Hb' Hc').
Qed.

(** C5, as the spec has it, fails: an id is a clock reading, and nothing
    compares it with the ids in the store.  A sync at reading 1000 hands out
    1000 and 1001; a task accepted one millisecond later gets 1001 again. *)
Lemma ids_collide_counterexample :
  ~ (forall ops : list StoreOp, idsUnique (tasks (runStore ops initialState))).
Proof.
  intros H.
  specialize (H [OpReplaceExternal
                   {| todayReading := 1000; tomorrowReading := 1000;
                      idReading1 := 1000; idReading2 := 1000 |};
                 OpAdd 1001
                   {| cTaskName := "Call Jake"; cDate := "July 26, 2024";
                      cTime := None; cCategory := "Work"; cPriority := Medium |}]).
  unfold idsUnique in H. cbn in H.
  inversion H as [|? ? _ H1]; subst.
  inversion H1 as [|? ? Hnotin _]; subst.
  apply Hnotin. now left.
Qed.

(** C5 (amended): an id is the clock reading of the insertion ([Date.now()]
    for an accepted task, [Date.now()] and [Date.now() + 1] for the two
    tasks of a sync) and is not compared with the ids in the store.  In a run
    of adds, syncs and status toggles no two tasks of the store share an id,
    local or external, provided every insertion reads a clock value greater
    than every id handed out before it. *)
Theorem ids_unique_when_clock_ahead (ops : list StoreOp) (s : AppState) (hw : Z) :
  idsUnique (tasks s) ->
  Forall (fun task => id task <= hw) (tasks s) ->
  clockAhead hw ops ->
  idsUnique (tasks (runStore ops s)).
Proof.
  intros Hnd Hb Hc. unfold idsUnique in *.
  apply (runStore_ids ops s hw Hnd); [|exact Hc].
  now apply Forall_map.
Qed.

Lemma ids_unique_when_clock_ahead_witness :
  let c := {| cTaskName := "Call Jake"; cDate := "July 26, 2024";
              cTime := None; cCategory := "Work"; cPriority := Medium |} in
  idsUnique
    (tasks (runStore
              [OpAdd 990 c;
               OpReplaceExternal {| todayReading := 1000; tomorrowReading := 1000;
                                    idReading1 := 1000; idReading2 := 1000 |};
               OpToggleStatus 990;
               OpAdd 1002 c;
               OpReplaceExternal {| todayReading := 2000; tomorrowReading := 2000;
                                    idReading1 := 2000; idReading2 := 2001 |}]
              initialState)).
Proof.
  intros c.
  apply (ids_unique_when_clock_ahead _ initialState 0).
  - constructor.
  - constructor.
  - cbn. lia.
Defined.

(** ** Task store: status toggle and the attached timer *)

Lemma setTasks_same (s : AppState) : setTasks (tasks s) s = s.
Proof. now destruct s. Qed.

Lemma toggle_tasks (tid : Z) (s : AppState) :
  tasks (handleToggleComplete tid s)
    = map (fun task => if id task =? tid then toggledTask task else task) (tasks s).
Proof. unfold handleToggleComplete. now destruct (timerAttachedTo tid s). Qed.

Lemma toggle_timer (tid : Z) (s : AppState) :
  activeTimer (handleToggleComplete tid s)
    = if timerAttachedTo tid s then None else activeTimer s.
Proof. unfold handleToggleComplete. now destruct (timerAttachedTo tid s). Qed.

(** The task with the toggled id changes status, in its place. *)
Lemma toggle_flips (tid : Z) (s : AppState) (task : ParsedTask) :
  In task (tasks s) -> id task = tid ->
  In (toggledTask task) (tasks (handleToggleComplete tid s))
  /\ status (toggledTask task)
       = match status task with active => completed | completed => active end.
Proof.
  intros Hin Hid. split; [|reflexivity].
  rewrite toggle_tasks. apply in_map_iff. exists task.
  split; [|exact Hin]. subst tid. now rewrite Z.eqb_refl.
Qed.

(** With no task of that id the store is unchanged, and so is the whole state
    unless the timer is attached to that (absent) id. *)
Lemma toggle_absent (tid : Z) (s : AppState) :
  Forall (fun task => id task <> tid) (tasks s) ->
  tasks (handleToggleComplete tid s) = tasks s
  /\ (timerAttachedTo tid s = false -> handleToggleComplete tid s = s).
Proof.
  intros Habs.
  assert (Hmap : map (fun task => if id task =? tid then toggledTask task else task)
                     (tasks s) = tasks s).
  { induction (tasks s) as [|task l IH]; [reflexivity|].
    inversion Habs; subst. cbn.
    destruct (Z.eqb_spec (id task) tid); [contradiction|].
    f_equal. now apply IH. }
  split; [now rewrite toggle_tasks|].
  intros Hno. unfold handleToggleComplete. rewrite Hno, Hmap. apply setTasks_same.
Qed.

Lemma toggle_detaches (tid : Z) (s : AppState) (t : ActiveTimer) :
  activeTimer s = Some t -> taskId t = tid ->
  activeTimer (handleToggleComplete tid s) = None.
Proof.
  intros Ht Hid. rewrite toggle_timer. unfold timerAttachedTo.
  rewrite Ht. subst tid. now rewrite Z.eqb_refl.
Qed.

(** The toggle keeps the invariant: a timer that stays is attached to a task
    that the toggle did not touch. *)
Lemma toggle_keeps_attachment (tid : Z) (s : AppState) :
  attachedToActiveTask s = true ->
  attachedToActiveTask (handleToggleComplete tid s) = true.
Proof.
  unfold attachedToActiveTask. rewrite toggle_timer, toggle_tasks.
  unfold timerAttachedTo.
  destruct (activeTimer s) as [t|]; [|reflexivity].
  destruct (Z.eqb_spec (taskId t) tid) as [E|E]; [reflexivity|].
  rewrite !existsb_exists. intros (task & Hin & Hok).
  apply andb_true_iff in Hok as [Hid Hst]. apply Z.eqb_eq in Hid.
  exists task. split.
  - apply in_map_iff. exists task. split; [|exact Hin].
    destruct (Z.eqb_spec (id task) tid); [congruence|reflexivity].
  - now rewrite Hid, Z.eqb_refl, Hst.
Qed.

(** The invariant looks at the task of the timer and at the store only. *)
Lemma attachment_depends_on_id_and_tasks (s s' : AppState) :
  option_map taskId (activeTimer s') = option_map taskId (activeTimer s) ->
  tasks s' = tasks s ->
  attachedToActiveTask s' = attachedToActiveTask s.
Proof.
  unfold attachedToActiveTask. intros Hid Hts. rewrite Hts.
  destruct (activeTimer s') as [t'|], (activeTimer s) as [t|];
    try discriminate; [|reflexivity].
  cbn in Hid. injection Hid as ->. reflexivity.
Qed.

Lemma transition_taskId (settings : PomodoroSettings) (t : ActiveTimer) :
  taskId (transitionToNextMode settings t) = taskId t.
Proof.
  unfold transitionToNextMode.
  destruct (mode t); [|reflexivity|reflexivity].
  now destruct (is_zero _).
Qed.

(** Ticks, pause/resume and skips keep the invariant: they leave the timer
    with its task or leave none, and do not touch the store. *)
Lemma engineStep_keeps_attachment (s : AppState) (op : EngineOp) :
  attachedToActiveTask s = true -> attachedToActiveTask (engineStep s op) = true.
Proof.
  intros Hatt.
  destruct (activeTimer (engineStep s op)) as [t'|] eqn:Ht'.
  2:{ unfold attachedToActiveTask. now rewrite Ht'. }
  rewrite <- Hatt. apply attachment_depends_on_id_and_tasks.
  - rewrite Ht'. destruct op as [how| |]; cbn [engineStep] in Ht'.
    + destruct (activeTimer s) as [t|] eqn:Ht.
      * destruct (isPaused t) eqn:Hp.
        -- rewrite tick_not_running in Ht'
             by (unfold intervalRunning; now rewrite Ht, Hp).
           congruence.
        -- rewrite (tick_running how s t Ht Hp) in Ht'.
           destruct (timeLeft t >? 1); [now injection Ht' as <-|].
           destruct how; [|discriminate].
           injection Ht' as <-. cbn. now rewrite transition_taskId.
      * rewrite tick_not_running in Ht'
          by (unfold intervalRunning; now rewrite Ht).
        congruence.
    + unfold handlePauseResumeTimer in Ht'.
      destruct (activeTimer s); [now injection Ht' as <-|discriminate].
    + unfold handleSkip in Ht'. destruct (activeTimer s) as [t|] eqn:Ht.
      * injection Ht' as <-. cbn. now rewrite transition_taskId.
      * congruence.
  - destruct op; cbn [engineStep].
    + apply tick_tasks.
    + reflexivity.
    + unfold handleSkip. now destruct (activeTimer s).
Qed.

Lemma existsb_app_l {A : Type} (f : A -> bool) (l l' : list A) :
  existsb f l = true -> existsb f (l ++ l') = true.
Proof. intros H. rewrite existsb_app, H. reflexivity. Qed.

(** So do the other handlers that remove no task: the reset, accepting a
    task, moving a task on the calendar, changing a setting, and starting a
    timer from the row of an active task. *)
Lemma other_handlers_keep_attachment (s : AppState) :
  attachedToActiveTask s = true ->
  attachedToActiveTask (handleResetTimer s) = true
  /\ (forall now, attachedToActiveTask (handleAccept now s) = true)
  /\ (forall eid t allDay, attachedToActiveTask (handleEventDrop eid t allDay s) = true)
  /\ (forall field value, attachedToActiveTask (handleSettingsChange field value s) = true)
  /\ (forall tid,
        existsb (fun task => (id task =? tid) && Status_eqb (status task) active)
                (tasks s) = true ->
        attachedToActiveTask (clickStartTimer tid s) = true).
Proof.
  intros Hinv. split; [reflexivity|]. split; [|split; [|split]].
  - intros now. unfold handleAccept.
    destruct (parsedTask s); [|exact Hinv].
    unfold attachedToActiveTask in *. cbn.
    destruct (activeTimer s); [|reflexivity]. now apply existsb_app_l.
  - intros eid t allDay. unfold attachedToActiveTask in *. cbn.
    destruct (activeTimer s) as [tm|]; [|reflexivity].
    rewrite existsb_exists in *. destruct Hinv as (task & Hin & Hok).
    exists (if id task =? eid then rescheduledTask t allDay task else task).
    split; [apply in_map_iff; now exists task|].
    now destruct (id task =? eid).
  - intros field value. unfold handleSettingsChange.
    destruct (parseInt value) as [n|]; [|exact Hinv].
    destruct (n >? 0); exact Hinv.
  - intros tid Hrow. unfold clickStartTimer.
    destruct (startButtonDisabled s); [exact Hinv|].
    unfold attachedToActiveTask. cbn. exact Hrow.
Qed.

(** C6: the code does not keep the invariant on every operation.  After a
    sync, with the timer started on the synced task 1000, disconnecting the
    calendar removes the task and leaves the timer attached to it; a toggle
    of the absent id 1000 then changes the engine.  A second sync does the
    same: it replaces the synced tasks by tasks with new ids.  (On the toggle itself the
    claim holds: [toggle_flips], [toggle_absent], [toggle_detaches],
    [toggle_keeps_attachment]; the handlers that remove no task keep the
    invariant too: [engineStep_keeps_attachment],
    [other_handlers_keep_attachment].) *)
Theorem disconnect_leaves_timer_attached :
  let c := {| todayReading := 1000; tomorrowReading := 1000;
              idReading1 := 1000; idReading2 := 1000 |} in
  let s1 := handleSyncNow c (handleConnectGoogleCalendar initialState) in
  let s2 := clickStartTimer 1000 s1 in
  let s3 := handleDisconnectGoogleCalendar s2 in
  let resync := handleSyncNow {| todayReading := 9000; tomorrowReading := 9000;
                                 idReading1 := 9000; idReading2 := 9000 |} s2 in
  attachedToActiveTask s2 = true
  /\ tasks s3 = []
  /\ option_map taskId (activeTimer s3) = Some 1000
  /\ attachedToActiveTask s3 = false
  /\ handleToggleComplete 1000 s3 <> s3
  /\ map id (tasks resync) = [9000; 9001]
  /\ option_map taskId (activeTimer resync) = Some 1000
  /\ attachedToActiveTask resync = false.
Proof.
  cbv zeta. repeat split. discriminate.
Qed.

(** ** Date/time reconciliation *)

(** *** Strings *)

Lemma append_assoc (a b c : string) : ((a ++ b) ++ c = a ++ b ++ c)%string.
Proof. induction a as [|x a IH]; cbn; [reflexivity|now rewrite IH]. Qed.

Lemma stripPrefix_append (p s : string) : stripPrefix p (p ++ s) = Some s.
Proof.
  induction p as [|a p IH]; cbn; [reflexivity|].
  now rewrite Ascii.eqb_refl.
Qed.

Lemma readDigits_uint (d : uint) (rest : string) (acc count : nat) :
  noDigitAhead rest = true ->
  readDigits (NilEmpty.string_of_uint d ++ rest) acc count
    = (Nat.of_uint_acc d acc, (count + Unsigned.usize d)%nat, rest).
Proof.
  intros Hrest. revert acc count.
  induction d; intros acc count; cbn [NilEmpty.string_of_uint append];
    try (cbn [readDigits];
         match goal with
         | |- context [digitValue ?c] =>
             let v := eval vm_compute in (digitValue c) in
             change (digitValue c) with v
         end;
         cbv iota beta; rewrite IHd; cbn [Nat.of_uint_acc Unsigned.usize];
         rewrite Nat.tail_mul_spec; f_equal; f_equal; [f_equal; lia | lia]).
  cbn [Nat.of_uint_acc Unsigned.usize]. rewrite Nat.add_0_r.
  destruct rest as [|c r]; [reflexivity|].
  cbn [readDigits]. cbn in Hrest. now destruct (digitValue c).
Qed.

Lemma to_uint_usize (n : nat) : (1 <= Unsigned.usize (Nat.to_uint n))%nat.
Proof.
  destruct (Nat.to_uint n) eqn:E; cbn; try lia.
  pose proof (Unsigned.of_to n) as H. rewrite E in H. cbn in H. subst n.
  discriminate E.
Qed.

Lemma readNumber_show (n : Z) (rest : string) :
  0 <= n -> noDigitAhead rest = true ->
  readNumber (showZ n ++ rest) = Some (n, rest).
Proof.
  intros Hn Hrest. unfold readNumber, showZ, showNat.
  rewrite (readDigits_uint _ _ _ _ Hrest).
  pose proof (to_uint_usize (Z.to_nat n)) as Hu.
  destruct (0 + Unsigned.usize (Nat.to_uint (Z.to_nat n)))%nat eqn:E; [lia|].
  change (Nat.of_uint_acc (Nat.to_uint (Z.to_nat n)) 0)
    with (Nat.of_uint (Nat.to_uint (Z.to_nat n))).
  rewrite Unsigned.of_to. now rewrite Z2Nat.id.
Qed.

(** *** Calendar *)

(** The year of a day of the era, counted from March, and the day in that
    year; the 366th day exists only before the March of a leap year. *)
Lemma year_of_era (doe : Z) :
  0 <= doe < 146097 ->
  let yoe := (doe - doe / 1460 + doe / 36524 - doe / 146096) / 365 in
  let doy := doe - (365 * yoe + yoe / 4 - yoe / 100) in
  0 <= yoe <= 399 /\ 0 <= doy <= 365
  /\ (doy = 365 ->
        (yoe + 1) mod 4 = 0 /\ ((yoe + 1) mod 100 <> 0 \/ (yoe + 1) mod 400 = 0))
  /\ (146037 <= doe -> yoe = 399 /\ 306 <= doy).
Proof.
  intros H. cbv zeta. Z.div_mod_to_equations. lia.
Qed.

(** Replaces the tests of the goal on numerals by their values. *)
Ltac decide_closed_tests :=
  repeat match goal with
         | |- context [if ?c then _ else _] =>
             lazymatch c with context [isLeapYear] => fail | _ => idtac end;
             let v := eval vm_compute in c in
             match v with
             | true => change c with true
             | false => change c with false
             end;
             cbv iota
         end.

Lemma civil_of_day_of_era (doe : Z) :
  0 <= doe < 146097 ->
  let '(y, m, d) := civilFromDays (doe - 719468) in
  0 <= y <= 400 /\ 1 <= m <= 12 /\ 1 <= d <= daysInMonth y m
  /\ daysFromCivil y m d = doe - 719468
  /\ (146037 <= doe -> y = 400).
Proof.
  intros Hdoe. unfold civilFromDays.
  replace (doe - 719468 + 719468) with doe by lia.
  rewrite (Z.mod_small _ _ Hdoe), (Z.div_small _ _ Hdoe).
  pose proof (year_of_era doe Hdoe) as Hyear. cbv zeta in Hyear.
  set (yoe := (doe - doe / 1460 + doe / 36524 - doe / 146096) / 365) in *.
  destruct Hyear as (Hyoe & Hdoy & Hleap & Hlast).
  assert (HleapB : doe - (365 * yoe + yoe / 4 - yoe / 100) = 365 ->
                   isLeapYear (yoe + 1) = true).
  { intros E. destruct (Hleap E) as [H4 H100]. unfold isLeapYear.
    rewrite H4. cbn [Z.eqb andb].
    destruct (Z.eqb_spec ((yoe + 1) mod 100) 0),
             (Z.eqb_spec ((yoe + 1) mod 400) 0); try reflexivity. lia. }
  clear Hleap. unfold daysFromCivil.
  set (m := if (5 * (doe - (365 * yoe + yoe / 4 - yoe / 100)) + 2) / 153 <? 10
            then (5 * (doe - (365 * yoe + yoe / 4 - yoe / 100)) + 2) / 153 + 3
            else (5 * (doe - (365 * yoe + yoe / 4 - yoe / 100)) + 2) / 153 - 9).
  replace (if m <=? 2
           then yoe + 0 * 400 + (if m <=? 2 then 1 else 0) - 1
           else yoe + 0 * 400 + (if m <=? 2 then 1 else 0))
    with yoe by (destruct (m <=? 2); lia).
  rewrite (Z.div_small yoe 400), (Z.mod_small yoe 400) by lia.
  subst m.
  set (q4 := yoe / 4) in *. set (q100 := yoe / 100) in *.
  set (doy := doe - (365 * yoe + q4 - q100)) in *.
  assert (Hdef : doe = 365 * yoe + q4 - q100 + doy) by (subst doy; lia).
  set (mp := (5 * doy + 2) / 153).
  assert (Hmp : 153 * mp <= 5 * doy + 2 < 153 * mp + 153)
    by (subst mp; Z.div_mod_to_equations; lia).
  assert (Hcases : mp = 0 \/ mp = 1 \/ mp = 2 \/ mp = 3 \/ mp = 4 \/ mp = 5
                   \/ mp = 6 \/ mp = 7 \/ mp = 8 \/ mp = 9 \/ mp = 10 \/ mp = 11)
    by lia.
  clearbody mp doy q4 q100 yoe. unfold daysInMonth.
  repeat (destruct Hcases as [->|Hcases]); try subst mp;
    decide_closed_tests;
    try match goal with
        | |- context [isLeapYear ?y] =>
            replace y with (yoe + 1) by lia;
            destruct (isLeapYear (yoe + 1));
            [|assert (doy <> 365) by (intros E; specialize (HleapB E); discriminate)]
        end;
    repeat split; try (Z.div_mod_to_equations; lia).
Qed.

Lemma civilFromDays_era (z : Z) :
  let era := (z + 719468) / 146097 in
  let doe := (z + 719468) mod 146097 in
  civilFromDays z
    = let '(y, m, d) := civilFromDays (doe - 719468) in (y + era * 400, m, d).
Proof.
  cbv zeta. unfold civilFromDays.
  replace ((z + 719468) mod 146097 - 719468 + 719468)
    with ((z + 719468) mod 146097) by lia.
  pose proof (Z.mod_pos_bound (z + 719468) 146097 ltac:(lia)) as Hdoe.
  rewrite (Z.mod_small _ _ Hdoe), (Z.div_small _ _ Hdoe).
  f_equal. f_equal. lia.
Qed.

Lemma isLeapYear_era (y e : Z) : isLeapYear (y + e * 400) = isLeapYear y.
Proof.
  unfold isLeapYear.
  replace ((y + e * 400) mod 4) with (y mod 4)
    by (replace (e * 400) with (e * 100 * 4) by lia; now rewrite Z.mod_add).
  replace ((y + e * 400) mod 100) with (y mod 100)
    by (replace (e * 400) with (e * 4 * 100) by lia; now rewrite Z.mod_add).
  now rewrite Z.mod_add.
Qed.

Lemma daysInMonth_era (y e m : Z) : daysInMonth (y + e * 400) m = daysInMonth y m.
Proof. unfold daysInMonth. now rewrite isLeapYear_era. Qed.

Lemma daysFromCivil_era (y e m d : Z) :
  daysFromCivil (y + e * 400) m d = daysFromCivil y m d + e * 146097.
Proof.
  unfold daysFromCivil.
  assert (H : (if m <=? 2 then y + e * 400 - 1 else y + e * 400)
              = (if m <=? 2 then y - 1 else y) + e * 400)
    by (destruct (m <=? 2); lia).
  rewrite H. rewrite Z.div_add, Z.mod_add by lia. lia.
Qed.

(** The date of a day number is a date of the calendar, and it is the date
    of that day number only. *)
Lemma civilFromDays_valid (z : Z) :
  let '(y, m, d) := civilFromDays z in
  1 <= m <= 12 /\ 1 <= d <= daysInMonth y m /\ daysFromCivil y m d = z
  /\ (daysFromCivil 0 1 1 <= z -> 0 <= y).
Proof.
  rewrite civilFromDays_era. cbv zeta.
  pose proof (Z.mod_pos_bound (z + 719468) 146097 ltac:(lia)) as Hdoe.
  pose proof (Z.div_mod (z + 719468) 146097 ltac:(lia)) as Hz.
  set (era := (z + 719468) / 146097) in *.
  set (doe := (z + 719468) mod 146097) in *.
  pose proof (civil_of_day_of_era doe Hdoe) as Hera.
  destruct (civilFromDays (doe - 719468)) as [[y m] d].
  destruct Hera as (Hy & Hm & Hd & Hback & Hlast).
  rewrite daysInMonth_era, daysFromCivil_era.
  split; [lia|]. split; [lia|]. split; [lia|].
  change (daysFromCivil 0 1 1) with (-719528). intros Hmin.
  assert (He : -1 <= era) by nia.
  destruct (Z.eq_dec era (-1)) as [E|E]; [|nia].
  rewrite Hlast by lia. lia.
Qed.

(** Dates of year 0 and later are not before [minTime]. *)
Lemma daysFromCivil_min (y m d : Z) :
  0 <= y -> 1 <= m <= 12 -> 1 <= d -> daysFromCivil 0 1 1 <= daysFromCivil y m d.
Proof.
  intros Hy Hm Hd. change (daysFromCivil 0 1 1) with (-719528).
  unfold daysFromCivil.
  destruct (Z.leb_spec m 2), (Z.gtb_spec m 2); try lia;
    Z.div_mod_to_equations; lia.
Qed.

(** *** Reading back what was written *)

Lemma findMonth_monthName (m : Z) (rest : string) :
  1 <= m <= 12 ->
  findMonth monthNames 1 (monthName m ++ rest) = Some (m, rest).
Proof.
  intros Hm.
  assert (H : m = 1 \/ m = 2 \/ m = 3 \/ m = 4 \/ m = 5 \/ m = 6 \/ m = 7
              \/ m = 8 \/ m = 9 \/ m = 10 \/ m = 11 \/ m = 12) by lia.
  repeat (destruct H as [->|H]; [reflexivity|]). now subst m.
Qed.

Lemma monthName_not_empty (m : Z) (rest : string) :
  1 <= m <= 12 -> isEmpty (monthName m ++ rest) = false.
Proof.
  intros Hm.
  assert (H : m = 1 \/ m = 2 \/ m = 3 \/ m = 4 \/ m = 5 \/ m = 6 \/ m = 7
              \/ m = 8 \/ m = 9 \/ m = 10 \/ m = 11 \/ m = 12) by lia.
  repeat (destruct H as [->|H]; [reflexivity|]). now subst m.
Qed.

Lemma readNumber_padded (n : Z) (rest : string) :
  0 <= n -> noDigitAhead rest = true ->
  readNumber ("0" ++ showZ n ++ rest) = Some (n, rest).
Proof.
  intros Hn Hrest. unfold readNumber, showZ, showNat.
  cbn [append readDigits].
  change (digitValue "0") with (Some 0%nat). cbv iota beta.
  rewrite (readDigits_uint _ _ _ _ Hrest).
  change (Nat.of_uint_acc (Nat.to_uint (Z.to_nat n)) (10 * 0 + 0))
    with (Nat.of_uint (Nat.to_uint (Z.to_nat n))).
  rewrite Unsigned.of_to. cbn [Nat.add]. now rewrite Z2Nat.id.
Qed.

Lemma showZ_not_empty (n : Z) (rest : string) :
  isEmpty (showZ n ++ rest) = false.
Proof.
  unfold showZ, showNat. pose proof (to_uint_usize (Z.to_nat n)) as Hu.
  destruct (Nat.to_uint (Z.to_nat n)); cbn in *; try reflexivity; lia.
Qed.

Ltac strip_prefix :=
  cbn [stripPrefix append bindOpt snd fst];
  rewrite ?Ascii.eqb_refl;
  cbn [stripPrefix append bindOpt snd fst].

(** The clock that [toLocaleTimeString] writes is read back to the minute. *)
Lemma parseClock_toLocaleTimeString (t : Z) :
  parseClock (" " ++ toLocaleTimeString t)
    = Some (TimeWithinDay t - TimeWithinDay t mod msPerMinute).
Proof.
  unfold toLocaleTimeString, TimeWithinDay.
  pose proof (Z.mod_pos_bound t msPerDay ltac:(reflexivity)) as Hr.
  set (r := t mod msPerDay) in *.
  set (h := r / msPerHour). set (mi := r mod msPerHour / msPerMinute).
  set (h12 := if h mod 12 =? 0 then 12 else h mod 12).
  unfold msPerDay, msPerHour, msPerMinute in *.
  assert (Hh : 0 <= h <= 23) by (subst h; Z.div_mod_to_equations; lia).
  assert (Hmi : 0 <= mi <= 59) by (subst mi; Z.div_mod_to_equations; lia).
  assert (Hsum : h * 3600000 + mi * 60000 = r - r mod 60000)
    by (subst h mi; Z.div_mod_to_equations; lia).
  assert (Hh12 : 1 <= h12 <= 12 /\ h12 mod 12 = h mod 12).
  { subst h12. destruct (Z.eqb_spec (h mod 12) 0) as [E|E].
    - rewrite E. split; [lia|reflexivity].
    - rewrite Z.mod_mod by lia. split; [|reflexivity].
      Z.div_mod_to_equations; lia. }
  destruct Hh12 as [Hh12 Hmod].
  unfold parseClock. cbn [append]. strip_prefix.
  rewrite readNumber_show by (reflexivity || lia). strip_prefix.
  set (ampm := if h <? 12 then "AM"%string else "PM"%string).
  assert (Hread : readNumber ((if (mi <? 10)%Z then "0" else EmptyString) ++ showZ mi
                                ++ String " " ampm)%string
                  = Some (mi, String " " ampm)).
  { destruct (mi <? 10).
    - apply readNumber_padded; [lia|reflexivity].
    - cbn [append]. apply readNumber_show; [lia|reflexivity]. }
  rewrite Hread. strip_prefix.
  replace ((1 <=? h12) && (h12 <=? 12) && (mi <=? 59)) with true
    by (symmetry; rewrite !andb_true_iff, !Z.leb_le; lia).
  rewrite Hmod.
  subst ampm.
  destruct (Z.ltb_spec h 12) as [Hlt|Hge]; cbn [String.eqb Ascii.eqb Bool.eqb];
    f_equal.
  - rewrite Z.mod_small by lia. unfold msPerHour, msPerMinute. lia.
  - replace (h mod 12) with (h - 12) by (Z.div_mod_to_equations; lia).
    unfold msPerHour, msPerMinute. lia.
Qed.

Lemma Day_min (t : Z) : minTime <= t -> daysFromCivil 0 1 1 <= Day t.
Proof.
  unfold minTime, Day. change (daysFromCivil 0 1 1) with (-719528).
  unfold msPerDay. intros H. Z.div_mod_to_equations. lia.
Qed.

(** A date written by [toLocaleDateString], followed by a clock, is read back
    as the start of its day plus the clock. *)
Lemma parseDate_written (t c : Z) (clock : string) :
  minTime <= t -> noDigitAhead clock = true -> parseClock clock = Some c ->
  parseDate (toLocaleDateString t ++ clock) = Some (Day t * msPerDay + c).
Proof.
  intros Hmin Hclock Hc. unfold toLocaleDateString.
  pose proof (civilFromDays_valid (Day t)) as Hv.
  destruct (civilFromDays (Day t)) as [[y m] d].
  destruct Hv as (Hm & Hd & Hback & Hy). specialize (Hy (Day_min t Hmin)).
  rewrite !append_assoc. unfold parseDate.
  rewrite findMonth_monthName by exact Hm. strip_prefix.
  rewrite readNumber_show by (reflexivity || lia). strip_prefix.
  rewrite readNumber_show by (assumption || lia). strip_prefix.
  replace ((1 <=? d) && (d <=? daysInMonth y m)) with true
    by (symmetry; rewrite andb_true_iff, !Z.leb_le; lia).
  rewrite Hc. cbn [bindOpt]. now rewrite Hback.
Qed.

Lemma findMonth_range (names : list string) (m0 m : Z) (s r : string) :
  findMonth names m0 s = Some (m, r) -> m0 <= m < m0 + Z.of_nat (List.length names).
Proof.
  revert m0. induction names as [|name names IH]; intros m0; cbn [findMonth List.length].
  - discriminate.
  - destruct (stripPrefix name s).
    + intros [= <- _]. lia.
    + intros H. apply IH in H. lia.
Qed.

Lemma readNumber_nonneg (s r : string) (n : Z) :
  readNumber s = Some (n, r) -> 0 <= n.
Proof.
  unfold readNumber. destruct (readDigits s 0 0) as [[a cnt] r'].
  destruct cnt; [discriminate|]. intros [= <- _]. lia.
Qed.

Lemma parseClock_range (s : string) (c : Z) :
  parseClock s = Some c -> 0 <= c /\ c mod msPerMinute = 0.
Proof.
  unfold parseClock. destruct s as [|a s].
  - intros [= <-]. split; [lia|reflexivity].
  - destruct (stripPrefix " " (String a s)) as [r|]; [|discriminate].
    cbn [bindOpt]. destruct (readNumber r) as [[h r1]|]; [|discriminate].
    cbn [bindOpt snd fst]. destruct (stripPrefix ":" r1) as [r2|]; [|discriminate].
    cbn [bindOpt]. destruct (readNumber r2) as [[mi r3]|] eqn:Emi; [|discriminate].
    cbn [bindOpt snd fst]. destruct (stripPrefix " " r3) as [r4|]; [|discriminate].
    cbn [bindOpt]. apply readNumber_nonneg in Emi.
    destruct ((1 <=? h) && (h <=? 12) && (mi <=? 59)) eqn:Eok; [|discriminate].
    rewrite !andb_true_iff, !Z.leb_le in Eok.
    unfold msPerHour, msPerMinute.
    destruct (r4 =? "AM")%string; [|destruct (r4 =? "PM")%string; [|discriminate]];
      intros [= <-]; split; try (Z.div_mod_to_equations; lia).
Qed.

(** What [new Date(...)] returns for a string it accepts is a whole minute,
    not before [minTime]. *)
Lemma parseDate_range (s : string) (t : Z) :
  parseDate s = Some t -> minTime <= t /\ t mod msPerMinute = 0.
Proof.
  unfold parseDate.
  destruct (findMonth monthNames 1 s) as [[m r]|] eqn:Em; [|discriminate].
  apply findMonth_range in Em.
  change (Z.of_nat (List.length monthNames)) with 12 in Em.
  cbn [bindOpt snd fst]. destruct (stripPrefix " " r) as [r1|]; [|discriminate].
  cbn [bindOpt]. destruct (readNumber r1) as [[d r2]|]; [|discriminate].
  cbn [bindOpt snd fst]. destruct (stripPrefix ", " r2) as [r3|]; [|discriminate].
  cbn [bindOpt]. destruct (readNumber r3) as [[y r4]|] eqn:Ey; [|discriminate].
  cbn [bindOpt snd fst]. apply readNumber_nonneg in Ey.
  destruct ((1 <=? d) && (d <=? daysInMonth y m)) eqn:Eok; [|discriminate].
  rewrite andb_true_iff, !Z.leb_le in Eok.
  destruct (parseClock r4) as [c|] eqn:Ec; [|discriminate].
  cbn [bindOpt]. intros [= <-]. apply parseClock_range in Ec as [Hc0 Hc].
  pose proof (daysFromCivil_min y m d Ey ltac:(lia) ltac:(lia)) as Hmin.
  unfold minTime. set (z := daysFromCivil y m d) in *.
  set (z0 := daysFromCivil 0 1 1) in *. clearbody z z0.
  unfold msPerDay, msPerMinute in *. split; [lia|].
  replace (z * 86400000 + c) with (c + z * 1440 * 60000) by lia.
  now rewrite Z.mod_add.
Qed.

(** *** The round trip *)

Lemma append_empty_r (a : string) : (a ++ EmptyString)%string = a.
Proof. induction a as [|x a IH]; cbn; [reflexivity|now rewrite IH]. Qed.

(** Writing a time value into a task and reading the task back: with a clock
    the result is the time value cut to the minute, without one it is the
    start of the day. *)
Lemma reschedule_then_parse (task : ParsedTask) (t : Z) :
  minTime <= t ->
  parseTaskDateTime (rescheduledTask t false task) = Some (t - t mod msPerMinute)
  /\ parseTaskDateTime (rescheduledTask t true task) = Some (t - t mod msPerDay).
Proof.
  intros Hmin.
  assert (Hdate : isEmpty (toLocaleDateString t) = false).
  { unfold toLocaleDateString.
    pose proof (civilFromDays_valid (Day t)) as Hv.
    destruct (civilFromDays (Day t)) as [[y m] d].
    apply monthName_not_empty. lia. }
  assert (Htime : isEmpty (toLocaleTimeString t) = false)
    by apply showZ_not_empty.
  unfold parseTaskDateTime, rescheduledTask. cbn [date time].
  rewrite Hdate, Htime. split.
  - rewrite (parseDate_written t _ (" " ++ toLocaleTimeString t) Hmin eq_refl
               (parseClock_toLocaleTimeString t)).
    f_equal. unfold Day, TimeWithinDay, msPerDay, msPerMinute.
    Z.div_mod_to_equations. lia.
  - rewrite <- (append_empty_r (toLocaleDateString t)).
    rewrite (parseDate_written t 0 EmptyString Hmin eq_refl eq_refl).
    f_equal. unfold Day, msPerDay. Z.div_mod_to_equations. lia.
Qed.

(** C8, as the spec has it, fails for the all-day flag: the task moved to
    3:00 PM on July 26, 2024 as an all-day event is read back as midnight. *)
Lemma all_day_round_trip_counterexample :
  ~ (forall (task : ParsedTask) (t : Z) (allDay : bool),
       parseTaskDateTime task = Some t ->
       exists t', parseTaskDateTime (rescheduledTask t allDay task) = Some t'
                  /\ t' / msPerMinute = t / msPerMinute).
Proof.
  intros H.
  pose (task := {| id := 1; taskName := "Review"; date := "July 26, 2024";
                   time := Some "3:00 PM"%string; category := "Work";
                   priority := Medium; status := active; source := lucid |}).
  assert (Ht : parseTaskDateTime task = Some 1722006000000) by reflexivity.
  destruct (H task 1722006000000 true Ht) as (t' & Ht' & Hsame).
  vm_compute in Ht'. injection Ht' as <-. vm_compute in Hsame. discriminate Hsame.
Qed.

(** C8 (amended): let [t] be a time value that [parseTaskDateTime] produced,
    or any time value from year 0 on.  Written back with a clock
    ([allDay = false]) and parsed again it is the same point in time to the
    minute: [t] cut to its minute, the text having no seconds.  Written back
    as an all-day date ([allDay = true]) it loses its clock: parsing gives
    the start of the day of [t], which is [t] to the minute only when [t] is
    in the first minute of its day. *)
Theorem reschedule_round_trip (task : ParsedTask) (t : Z) :
  (minTime <= t \/ exists source_task, parseTaskDateTime source_task = Some t) ->
  (exists t', parseTaskDateTime (rescheduledTask t false task) = Some t'
              /\ t' / msPerMinute = t / msPerMinute
              /\ t' = t - t mod msPerMinute)
  /\ (exists d, parseTaskDateTime (rescheduledTask t true task) = Some d
                /\ d = t - t mod msPerDay
                /\ (d / msPerMinute = t / msPerMinute <-> t mod msPerDay < msPerMinute)).
Proof.
  intros Hsrc.
  assert (Hmin : minTime <= t).
  { destruct Hsrc as [Hmin|[source_task Hsrc]]; [exact Hmin|].
    unfold parseTaskDateTime in Hsrc.
    destruct (isEmpty (date source_task)); [discriminate|].
    now apply parseDate_range in Hsrc. }
  destruct (reschedule_then_parse task t Hmin) as [Hclock Hday].
  split.
  - exists (t - t mod msPerMinute). split; [exact Hclock|]. split; [|reflexivity].
    unfold msPerMinute. Z.div_mod_to_equations. lia.
  - exists (t - t mod msPerDay). split; [exact Hday|]. split; [reflexivity|].
    unfold msPerDay, msPerMinute. Z.div_mod_to_equations. lia.
Qed.

Lemma reschedule_round_trip_witness :
  let task := {| id := 1; taskName := "Review"; date := "July 26, 2024";
                 time := Some "3:00 PM"%string; category := "Work";
                 priority := Medium; status := active; source := lucid |} in
  parseTaskDateTime task = Some 1722006000000
  /\ parseTaskDateTime (rescheduledTask 1722006000000 false task)
       = Some 1722006000000
  /\ parseTaskDateTime (rescheduledTask (1722006000000 + 59999) false task)
       = Some 1722006000000
  /\ parseTaskDateTime (rescheduledTask 1722006000000 true task)
       = Some 1721952000000.
Proof.
  intros task.
  assert (Ht : parseTaskDateTime task = Some 1722006000000) by reflexivity.
  destruct (reschedule_round_trip task 1722006000000
              (or_intror (ex_intro _ task Ht)))
    as ((t1 & H1 & _ & E1) & (d & H3 & E3 & _)).
  assert (Hmin : minTime <= 1722006000000 + 59999) by (vm_compute; discriminate).
  destruct (reschedule_round_trip task (1722006000000 + 59999) (or_introl Hmin))
    as ((t2 & H2 & _ & E2) & _).
  split; [exact Ht|].
  split; [rewrite H1, E1; reflexivity|].
  split; [rewrite H2, E2; reflexivity|].
  rewrite H3, E3. reflexivity.
Defined.

(** * The rest of the component *)

(** ** Engine: what a started timer keeps *)

Lemma transition_engineInvariant (settings : PomodoroSettings) (tid : Z)
    (t : ActiveTimer) :
  validSettings settings -> engineInvariant settings tid t ->
  engineInvariant settings tid (transitionToNextMode settings t)
  /\ cycleCount t <= cycleCount (transitionToNextMode settings t).
Proof.
  intros ((Hw & Hs & Hl) & Hc) (Hid & Hcc & Htl & Hlong & Hshort).
  assert (Hnz : cycles settings <> 0) by lia.
  destruct (mode t) eqn:Hm.
  - destruct (Z.eq_dec ((cycleCount t + 1) mod cycles settings) 0) as [E|E].
    + rewrite (transition_work_long settings Hnz t Hm E).
      unfold engineInvariant. cbn.
      repeat split; try lia; try discriminate.
    + rewrite (transition_work_short settings Hnz t Hm E).
      unfold engineInvariant. cbn.
      repeat split; try lia; try discriminate; try (intros _; exact E).
  - rewrite (transition_break settings t) by (rewrite Hm; discriminate).
    unfold engineInvariant. cbn. repeat split; try lia; discriminate.
  - rewrite (transition_break settings t) by (rewrite Hm; discriminate).
    unfold engineInvariant. cbn. repeat split; try lia; discriminate.
Qed.

(** An engine operation leaves a timer only where there was one; the timer
    it leaves has the invariant, and a cycle count that is not lower. *)
Lemma engineStep_engineInvariant (s : AppState) (op : EngineOp) (tid : Z)
    (t' : ActiveTimer) :
  validSettings (pomodoroSettings s) ->
  (forall t, activeTimer s = Some t -> engineInvariant (pomodoroSettings s) tid t) ->
  activeTimer (engineStep s op) = Some t' ->
  engineInvariant (pomodoroSettings s) tid t'
  /\ exists t, activeTimer s = Some t /\ cycleCount t <= cycleCount t'.
Proof.
  intros Hv Hall Ht'.
  destruct (activeTimer s) as [t|] eqn:Ht.
  2:{ rewrite (engineStep_no_timer s op Ht) in Ht'. congruence. }
  pose proof (Hall t eq_refl) as Hinv.
  destruct (transition_engineInvariant _ tid t Hv Hinv) as [Htr Hmono].
  assert (Hsame : engineInvariant (pomodoroSettings s) tid t
                  /\ exists t0, Some t = Some t0 /\ cycleCount t0 <= cycleCount t).
  { split; [exact Hinv|]. exists t. split; [reflexivity|lia]. }
  assert (Hnext : engineInvariant (pomodoroSettings s) tid
                    (transitionToNextMode (pomodoroSettings s) t)
                  /\ exists t0, Some t = Some t0
                       /\ cycleCount t0
                          <= cycleCount (transitionToNextMode (pomodoroSettings s) t)).
  { split; [exact Htr|]. exists t. split; [reflexivity|exact Hmono]. }
  destruct op as [how| |]; cbn [engineStep] in Ht'.
  - destruct (isPaused t) eqn:Hp.
    + rewrite tick_not_running in Ht'
        by (unfold intervalRunning; now rewrite Ht, Hp).
      rewrite Ht in Ht'. injection Ht' as <-. exact Hsame.
    + rewrite (tick_running how s t Ht Hp) in Ht'.
      destruct (Z.gtb_spec (timeLeft t) 1) as [Hgt|Hle].
      * injection Ht' as <-. split; [|exists t; split; [reflexivity|cbn; lia]].
        destruct Hinv as (Hid & Hcc & Htl & Hlong & Hshort).
        unfold engineInvariant. cbn.
        split; [exact Hid|split; [exact Hcc|split; [lia|split; [exact Hlong|exact Hshort]]]].
      * destruct how; [|discriminate]. injection Ht' as <-. exact Hnext.
  - unfold handlePauseResumeTimer in Ht'. rewrite Ht in Ht'. injection Ht' as <-.
    split; [exact Hinv|]. exists t. split; [reflexivity|cbn; lia].
  - unfold handleSkip in Ht'. rewrite Ht in Ht'. injection Ht' as <-. exact Hnext.
Qed.

Lemma runEngine_engineInvariant (ops : list EngineOp) (s : AppState) (tid : Z)
    (t' : ActiveTimer) :
  validSettings (pomodoroSettings s) ->
  (forall t, activeTimer s = Some t -> engineInvariant (pomodoroSettings s) tid t) ->
  activeTimer (runEngine ops s) = Some t' ->
  engineInvariant (pomodoroSettings s) tid t'
  /\ exists t, activeTimer s = Some t /\ cycleCount t <= cycleCount t'.
Proof.
  revert s. induction ops as [|op ops IH]; intros s Hv Hall Ht'.
  - cbn in Ht'. split; [now apply Hall|]. exists t'. split; [exact Ht'|lia].
  - cbn [runEngine fold_left] in Ht'. fold (runEngine ops (engineStep s op)) in Ht'.
    pose proof (engineStep_settings s op) as Hs.
    destruct (IH (engineStep s op)) as (Hinv & t1 & Ht1 & Hmono1);
      [now rewrite Hs| |exact Ht'|].
    + intros t1 Ht1. rewrite Hs.
      exact (proj1 (engineStep_engineInvariant s op tid t1 Hv Hall Ht1)).
    + rewrite Hs in Hinv. split; [exact Hinv|].
      destruct (engineStep_engineInvariant s op tid t1 Hv Hall Ht1)
        as (_ & t0 & Ht0 & Hmono0).
      exists t0. split; [exact Ht0|lia].
Qed.

Lemma runEngine_app (ops1 ops2 : list EngineOp) (s : AppState) :
  runEngine (ops1 ++ ops2) s = runEngine ops2 (runEngine ops1 s).
Proof. apply fold_left_app. Qed.

(** X1: a timer started for a task, under valid settings that stay as they
    are, keeps its task through every tick, pause/resume and skip for as long
    as it is there, however React runs the updaters of the ticks: whenever a
    run leaves a timer, the timer is that of the task; it has between one
    second and the full length of its mode left; it is in the long break only
    after a multiple of [cycles] work intervals, in the short break only
    after another number; and there was a timer after every part of the run,
    with a [cycleCount] that was not higher.  When the updaters of the ticks
    run during render, every run leaves a timer. *)
Theorem started_timer_keeps_invariant (s : AppState) (tid : Z)
    (ops1 ops2 : list EngineOp) :
  validSettings (pomodoroSettings s) ->
  (forall t2 : ActiveTimer,
     activeTimer (runEngine (ops1 ++ ops2) (handleStartTimer tid s)) = Some t2 ->
     engineInvariant (pomodoroSettings s) tid t2
     /\ exists t1,
          activeTimer (runEngine ops1 (handleStartTimer tid s)) = Some t1
          /\ cycleCount t1 <= cycleCount t2)
  /\ (ticksDuringRender (ops1 ++ ops2) = true ->
      exists t2,
        activeTimer (runEngine (ops1 ++ ops2) (handleStartTimer tid s)) = Some t2).
Proof.
  intros Hv.
  assert (Hstart : forall t, activeTimer (handleStartTimer tid s) = Some t ->
                     engineInvariant (pomodoroSettings s) tid t).
  { intros t [= <-]. destruct Hv as ((Hw & _) & _). unfold engineInvariant. cbn.
    repeat split; try lia; discriminate. }
  split.
  - intros t2 Ht2. split.
    + exact (proj1 (runEngine_engineInvariant (ops1 ++ ops2) (handleStartTimer tid s)
                      tid t2 Hv Hstart Ht2)).
    + rewrite runEngine_app in Ht2.
      set (s1 := runEngine ops1 (handleStartTimer tid s)) in *.
      assert (Hs1 : pomodoroSettings s1 = pomodoroSettings s)
        by exact (runEngine_settings ops1 (handleStartTimer tid s)).
      refine (proj2 (runEngine_engineInvariant ops2 s1 tid t2 _ _ Ht2));
        [now rewrite Hs1|].
      intros t1 Ht1. rewrite Hs1.
      exact (proj1 (runEngine_engineInvariant ops1 (handleStartTimer tid s)
                      tid t1 Hv Hstart Ht1)).
  - intros Hops.
    exact (runEngine_live (ops1 ++ ops2) (handleStartTimer tid s) _ Hops eq_refl).
Qed.

Lemma started_timer_keeps_invariant_witness :
  let ops1 := [OpSkip; OpTick DuringRender] in
  let ops2 := [OpPauseResume; OpTick Eagerly; OpSkip; OpSkip] in
  exists t1 t2,
    activeTimer (runEngine ops1 (handleStartTimer 5 initialState)) = Some t1
    /\ activeTimer (runEngine (ops1 ++ ops2) (handleStartTimer 5 initialState))
         = Some t2
    /\ engineInvariant (pomodoroSettings initialState) 5 t2
    /\ cycleCount t1 <= cycleCount t2.
Proof.
  intros ops1 ops2.
  assert (Hv : validSettings (pomodoroSettings initialState))
    by (unfold validSettings, positiveDurations; cbn; lia).
  destruct (proj1 (started_timer_keeps_invariant initialState 5 ops1 ops2 Hv)
              _ eq_refl) as (Hinv & t1 & Ht1 & Hmono).
  exists t1. eexists. split; [exact Ht1|]. split; [reflexivity|].
  split; [exact Hinv|exact Hmono].
Defined.

(** ** Engine: counting down, pausing, resetting *)

Lemma setActiveTimer_twice (v w : option ActiveTimer) (s : AppState) :
  setActiveTimer v (setActiveTimer w s) = setActiveTimer v s.
Proof. reflexivity. Qed.

Lemma setActiveTimer_same (s : AppState) : setActiveTimer (activeTimer s) s = s.
Proof. now destruct s. Qed.

(** A tick writes the timer cell and nothing else. *)
Lemma tick_only_timer (how : UpdaterRun) (s : AppState) :
  tick how s = setActiveTimer (activeTimer (tick how s)) s.
Proof.
  unfold tick. destruct (intervalRunning s); [reflexivity|].
  symmetry. apply setActiveTimer_same.
Qed.

Lemma ticks_snoc (hows : list UpdaterRun) (how : UpdaterRun) (s : AppState) :
  ticks (hows ++ [how]) s = tick how (ticks hows s).
Proof. unfold ticks. now rewrite fold_left_app. Qed.

Lemma transition_ignores_timeLeft (settings : PomodoroSettings) (t : ActiveTimer)
    (x : Z) :
  transitionToNextMode settings
    {| taskId := taskId t; timeLeft := x; mode := mode t;
       cycleCount := cycleCount t; isPaused := isPaused t |}
  = transitionToNextMode settings t.
Proof. reflexivity. Qed.

(** While more seconds are left than ticks are made, each tick takes one
    second off, however React runs its updater. *)
Lemma ticks_countdown (hows : list UpdaterRun) (s : AppState) (t : ActiveTimer) :
  activeTimer s = Some t -> isPaused t = false ->
  Z.of_nat (List.length hows) < timeLeft t ->
  ticks hows s
    = setActiveTimer
        (Some {| taskId := taskId t;
                 timeLeft := timeLeft t - Z.of_nat (List.length hows);
                 mode := mode t; cycleCount := cycleCount t;
                 isPaused := isPaused t |}) s.
Proof.
  intros Ht Hp. induction hows as [|how hows IH] using rev_ind; intros Hn.
  - cbn [ticks fold_left List.length Z.of_nat]. rewrite Z.sub_0_r.
    rewrite <- (setActiveTimer_same s) at 1. rewrite Ht. now destruct t.
  - rewrite List.length_app in Hn |- *. cbn [List.length] in Hn |- *.
    rewrite ticks_snoc, IH by lia.
    set (tn := {| taskId := taskId t;
                  timeLeft := timeLeft t - Z.of_nat (List.length hows);
                  mode := mode t; cycleCount := cycleCount t;
                  isPaused := isPaused t |}).
    rewrite tick_only_timer, setActiveTimer_twice.
    rewrite (tick_running how (setActiveTimer (Some tn) s) tn eq_refl Hp).
    destruct (Z.gtb_spec (timeLeft tn) 1) as [_|Hle]; [|cbn in Hle; lia].
    cbn. do 3 f_equal. lia.
Qed.

(** The tick after the last second ends the interval. *)
Lemma ticks_to_end (hows : list UpdaterRun) (how : UpdaterRun) (s : AppState)
    (t : ActiveTimer) :
  activeTimer s = Some t -> isPaused t = false ->
  Z.of_nat (List.length hows) = timeLeft t - 1 ->
  ticks (hows ++ [how]) s
    = setActiveTimer
        (match how with
         | DuringRender => Some (transitionToNextMode (pomodoroSettings s) t)
         | Eagerly => None
         end) s.
Proof.
  intros Ht Hp Hlen.
  rewrite ticks_snoc, (ticks_countdown hows s t Ht Hp) by lia.
  set (tn := {| taskId := taskId t;
                timeLeft := timeLeft t - Z.of_nat (List.length hows);
                mode := mode t; cycleCount := cycleCount t;
                isPaused := isPaused t |}).
  rewrite tick_only_timer, setActiveTimer_twice.
  rewrite (tick_running how (setActiveTimer (Some tn) s) tn eq_refl Hp).
  destruct (Z.gtb_spec (timeLeft tn) 1) as [Hgt|_]; [cbn in Hgt; lia|].
  cbn [pomodoroSettings setActiveTimer]. unfold tn.
  now rewrite transition_ignores_timeLeft.
Qed.

(** X2: an interval lasts as many ticks as it has seconds.  On a running timer
    with [timeLeft] seconds left, fewer ticks than that only count down, with
    the mode, the cycle count and every other cell as they were, however React
    runs their updaters; the tick number [timeLeft] ends the interval: it
    makes the mode transition when its updater runs during render, and leaves
    no timer when its updater runs eagerly.  So a timer just started is in
    its first break, with the whole break left, after exactly [work * 60]
    ticks whose updaters run during render. *)
Theorem interval_lasts_timeLeft_ticks (s : AppState) (t : ActiveTimer) :
  activeTimer s = Some t -> isPaused t = false -> 1 <= timeLeft t ->
  (forall hows : list UpdaterRun,
     Z.of_nat (List.length hows) < timeLeft t ->
     ticks hows s
       = setActiveTimer
           (Some {| taskId := taskId t;
                    timeLeft := timeLeft t - Z.of_nat (List.length hows);
                    mode := mode t; cycleCount := cycleCount t;
                    isPaused := isPaused t |}) s)
  /\ (forall (hows : list UpdaterRun) (how : UpdaterRun),
        Z.of_nat (List.length hows) = timeLeft t - 1 ->
        ticks (hows ++ [how]) s
          = setActiveTimer
              (match how with
               | DuringRender => Some (transitionToNextMode (pomodoroSettings s) t)
               | Eagerly => None
               end) s).
Proof.
  intros Ht Hp Hge. split.
  - intros hows Hn. now apply ticks_countdown.
  - intros hows how Hlen. now apply ticks_to_end.
Qed.

Lemma interval_lasts_timeLeft_ticks_witness :
  let s := handleStartTimer 7 initialState in
  let hows := repeat DuringRender 1000 ++ repeat Eagerly 499 in
  option_map timeLeft (activeTimer (ticks hows s)) = Some 1
  /\ option_map mode (activeTimer (ticks hows s)) = Some ModeWork
  /\ activeTimer (ticks (hows ++ [DuringRender]) s)
       = Some {| taskId := 7; timeLeft := 300; mode := ModeShortBreak;
                 cycleCount := 1; isPaused := false |}
  /\ activeTimer (ticks (hows ++ [Eagerly]) s) = None.
Proof.
  intros s hows.
  assert (Hge : 1 <= timeLeft (startedTimer DEFAULT_SETTINGS 7)) by (cbn; lia).
  destruct (interval_lasts_timeLeft_ticks s
              (startedTimer DEFAULT_SETTINGS 7) eq_refl eq_refl Hge) as [Hdown Hend].
  assert (Hlen : Z.of_nat (List.length hows) = 1499).
  { unfold hows. rewrite List.length_app, !repeat_length. reflexivity. }
  rewrite (Hdown hows) by (rewrite Hlen; cbn; lia).
  rewrite (Hend hows DuringRender), (Hend hows Eagerly) by (rewrite Hlen; reflexivity).
  rewrite Hlen. repeat split.
Defined.

Lemma ticks_not_running (hows : list UpdaterRun) (s : AppState) :
  intervalRunning s = false -> ticks hows s = s.
Proof.
  intros H. induction hows as [|how hows IH]; [reflexivity|].
  unfold ticks. cbn [fold_left]. rewrite (tick_not_running how s H). exact IH.
Qed.

(** X3: a pause freezes the countdown.  Pausing a running timer, letting any
    number of seconds pass and resuming gives back the state in which the
    pause was made; and pause/resume pressed twice in a row changes nothing in
    any state. *)
Theorem pause_freezes_countdown (s : AppState) (hows : list UpdaterRun) :
  handlePauseResumeTimer (handlePauseResumeTimer s) = s
  /\ (intervalRunning s = true ->
        ticks hows (handlePauseResumeTimer s) = handlePauseResumeTimer s
        /\ handlePauseResumeTimer (ticks hows (handlePauseResumeTimer s)) = s).
Proof.
  assert (Htwice : handlePauseResumeTimer (handlePauseResumeTimer s) = s).
  { unfold handlePauseResumeTimer. destruct s as [p ts o st [t|] g]; cbn; [|reflexivity].
    destruct t as [i tl m c []]; reflexivity. }
  split; [exact Htwice|]. intros Hrun.
  assert (Hfrozen : ticks hows (handlePauseResumeTimer s) = handlePauseResumeTimer s).
  { apply ticks_not_running. unfold intervalRunning in *.
    unfold handlePauseResumeTimer. destruct (activeTimer s) as [t|]; [|discriminate].
    cbn. now rewrite Hrun. }
  split; [exact Hfrozen|]. rewrite Hfrozen. exact Htwice.
Qed.

Lemma pause_freezes_countdown_witness :
  let s := ticks (repeat DuringRender 10) (handleStartTimer 7 initialState) in
  option_map timeLeft (activeTimer s) = Some 1490
  /\ handlePauseResumeTimer
       (ticks (repeat DuringRender 1800 ++ repeat Eagerly 1800)
              (handlePauseResumeTimer s)) = s.
Proof.
  intros s. split; [reflexivity|].
  exact (proj2 (proj2 (pause_freezes_countdown s _) eq_refl)).
Defined.

(** X4: with no timer the engine operations do nothing, so after a reset,
    from any state, ticks, pause/resume and skips leave the state as the
    reset left it: no timer, the store and the settings untouched, and the
    Start button of every row enabled again. *)
Theorem reset_discards_timer (s : AppState) (ops : list EngineOp) (tid : Z) :
  activeTimer (handleResetTimer s) = None
  /\ runEngine ops (handleResetTimer s) = handleResetTimer s
  /\ tasks (handleResetTimer s) = tasks s
  /\ pomodoroSettings (handleResetTimer s) = pomodoroSettings s
  /\ clickStartTimer tid (handleResetTimer s) = handleStartTimer tid s
  /\ (activeTimer s = None -> runEngine ops s = s).
Proof.
  split; [reflexivity|]. split; [now apply runEngine_no_timer|].
  split; [reflexivity|]. split; [reflexivity|]. split; [reflexivity|].
  apply runEngine_no_timer.
Qed.

Lemma handleSettingsChange_only_settings (field : SettingsKey) (value : string)
    (s : AppState) :
  handleSettingsChange field value s
    = setPomodoroSettings (pomodoroSettings (handleSettingsChange field value s)) s.
Proof.
  unfold handleSettingsChange. destruct (parseInt value) as [n|].
  - destruct (n >? 0); [reflexivity|now destruct s].
  - now destruct s.
Qed.

(** X5: a change of the settings does not touch the interval that is running;
    it counts from the next transition on.  While the running timer has more
    seconds left than ticks are made, the ticks after the change give the
    state that the change gives after the ticks; and the tick that ends the
    interval, when it makes the transition (its updater runs during render),
    takes the length of the next interval from the changed settings; when its
    updater runs eagerly it leaves no timer. *)
Theorem settings_change_spares_running_interval
    (field : SettingsKey) (value : string) (s : AppState) (t : ActiveTimer) :
  activeTimer s = Some t -> isPaused t = false ->
  (forall hows : list UpdaterRun,
     Z.of_nat (List.length hows) < timeLeft t ->
     ticks hows (handleSettingsChange field value s)
       = handleSettingsChange field value (ticks hows s))
  /\ (forall (hows : list UpdaterRun) (how : UpdaterRun),
        Z.of_nat (List.length hows) = timeLeft t - 1 ->
        activeTimer (ticks (hows ++ [how]) (handleSettingsChange field value s))
          = match how with
            | DuringRender =>
                Some (transitionToNextMode
                        (pomodoroSettings (handleSettingsChange field value s)) t)
            | Eagerly => None
            end).
Proof.
  intros Ht Hp.
  assert (Ht' : activeTimer (handleSettingsChange field value s) = Some t).
  { rewrite handleSettingsChange_only_settings. exact Ht. }
  split.
  - intros hows Hn.
    rewrite (ticks_countdown hows _ t Ht' Hp Hn), (ticks_countdown hows s t Ht Hp Hn).
    unfold handleSettingsChange. destruct (parseInt value) as [v|]; [|reflexivity].
    now destruct (v >? 0).
  - intros hows how Hlen.
    rewrite (ticks_to_end hows how _ t Ht' Hp Hlen). reflexivity.
Qed.

Lemma settings_change_spares_running_interval_witness :
  let s := handleStartTimer 7 initialState in
  ticks (repeat DuringRender 100) (handleSettingsChange KeyShortBreak "10" s)
    = handleSettingsChange KeyShortBreak "10" (ticks (repeat DuringRender 100) s)
  /\ option_map timeLeft
       (activeTimer (ticks (repeat DuringRender 1499 ++ [DuringRender])
                           (handleSettingsChange KeyShortBreak "10" s)))
     = Some 600.
Proof.
  intros s.
  destruct (settings_change_spares_running_interval KeyShortBreak "10" s
              (startedTimer DEFAULT_SETTINGS 7) eq_refl eq_refl)
    as [Hcommute Hend].
  split.
  - apply Hcommute. rewrite repeat_length. cbn. lia.
  - rewrite (Hend (repeat DuringRender 1499) DuringRender)
      by (rewrite repeat_length; reflexivity).
    reflexivity.
Defined.

(** ** Timer display *)

Lemma string_length_append (a b : string) :
  String.length (a ++ b) = (String.length a + String.length b)%nat.
Proof. induction a as [|c a IH]; cbn; [reflexivity|now rewrite IH]. Qed.

Lemma readDigits_zeros (k : nat) (s : string) (count : nat) :
  readDigits (zeros k ++ s) 0 count = readDigits s 0 (count + k).
Proof.
  revert count. induction k as [|k IH]; intros count; cbn [zeros append].
  - now rewrite Nat.add_0_r.
  - cbn [readDigits]. change (digitValue "0") with (Some 0%nat). cbv iota beta.
    change (10 * 0 + 0)%nat with 0%nat. rewrite IH. f_equal. lia.
Qed.

(** A number written with zeros in front is read back. *)
Lemma readNumber_zeros (k : nat) (n : Z) (rest : string) :
  0 <= n -> noDigitAhead rest = true ->
  readNumber (zeros k ++ showZ n ++ rest) = Some (n, rest).
Proof.
  intros Hn Hrest. unfold readNumber. rewrite readDigits_zeros.
  unfold showZ, showNat. rewrite (readDigits_uint _ _ _ _ Hrest).
  pose proof (to_uint_usize (Z.to_nat n)) as Hu.
  destruct (0 + k + Unsigned.usize (Nat.to_uint (Z.to_nat n)))%nat eqn:E; [lia|].
  change (Nat.of_uint_acc (Nat.to_uint (Z.to_nat n)) 0)
    with (Nat.of_uint (Nat.to_uint (Z.to_nat n))).
  rewrite Unsigned.of_to. now rewrite Z2Nat.id.
Qed.

Lemma numberToString_nonneg (n : Z) : 0 <= n -> numberToString n = showZ n.
Proof.
  intros Hn. unfold numberToString.
  destruct (Z.ltb_spec n 0); [lia|reflexivity].
Qed.

Lemma readNumber_padStart (w : nat) (n : Z) (rest : string) :
  0 <= n -> noDigitAhead rest = true ->
  readNumber (padStart w (numberToString n) ++ rest) = Some (n, rest).
Proof.
  intros Hn Hrest. rewrite numberToString_nonneg by exact Hn.
  unfold padStart. rewrite append_assoc. now apply readNumber_zeros.
Qed.

Lemma padStart_two_digits (k : nat) :
  (k < 100)%nat ->
  String.length (padStart 2 (numberToString (Z.of_nat k))) = 2%nat.
Proof.
  intros Hk.
  assert (Hall : forallb
                   (fun k => Nat.eqb (String.length
                                        (padStart 2 (numberToString (Z.of_nat k)))) 2)
                   (seq 0 100) = true) by (vm_compute; reflexivity).
  rewrite forallb_forall in Hall. apply Nat.eqb_eq, Hall, in_seq. lia.
Qed.

(** X6: the display tells the time left.  For times that are not negative,
    two different numbers of seconds are shown as two different strings,
    however many minutes there are; and below 100 minutes the string has five
    characters, two for the minutes and two for the seconds. *)
Theorem formatTime_tells_time_left (a b : Z) :
  0 <= a -> 0 <= b ->
  (formatTime a = formatTime b -> a = b)
  /\ (a < 6000 -> String.length (formatTime a) = 5%nat).
Proof.
  intros Ha Hb.
  assert (Hread : forall x, 0 <= x ->
            readNumber (formatTime x)
              = Some (x / 60, (":" ++ padStart 2 (numberToString (Z.rem x 60)))%string)
            /\ readNumber (padStart 2 (numberToString (Z.rem x 60)) ++ EmptyString)
               = Some (Z.rem x 60, EmptyString)).
  { intros x Hx. split.
    - unfold formatTime. apply readNumber_padStart; [|reflexivity].
      apply Z.div_pos; lia.
    - apply readNumber_padStart; [|reflexivity]. apply Z.rem_nonneg; lia. }
  split.
  - intros Heq.
    destruct (Hread a Ha) as [Ha1 Ha2], (Hread b Hb) as [Hb1 Hb2].
    rewrite Heq, Hb1 in Ha1. cbn [append] in Ha1.
    assert (Hmin : b / 60 = a / 60) by congruence.
    assert (Hsec : padStart 2 (numberToString (Z.rem b 60))
                   = padStart 2 (numberToString (Z.rem a 60))) by congruence.
    rewrite Hsec, Ha2 in Hb2.
    assert (Hrem : Z.rem a 60 = Z.rem b 60) by congruence.
    rewrite (Z.quot_rem' a 60), (Z.quot_rem' b 60).
    rewrite !Z.quot_div_nonneg by lia. congruence.
  - intros Hlt. unfold formatTime. rewrite !string_length_append.
    assert (Hq : 0 <= a / 60 < 100) by (split; [apply Z.div_pos|apply Z.div_lt_upper_bound]; lia).
    assert (Hr : 0 <= Z.rem a 60 < 60) by (apply Z.rem_bound_pos; lia).
    rewrite <- (Z2Nat.id (a / 60)), <- (Z2Nat.id (Z.rem a 60)) by lia.
    rewrite !padStart_two_digits by lia. reflexivity.
Qed.

Lemma formatTime_tells_time_left_witness :
  formatTime 1500 = "25:00"%string /\ formatTime 65 = "01:05"%string
  /\ (formatTime 65 = formatTime 65 -> 65 = 65)
  /\ String.length (formatTime 5999) = 5%nat
  /\ formatTime 6000 = "100:00"%string.
Proof.
  assert (H0 : 0 <= 65) by lia. assert (H1 : 0 <= 5999) by lia.
  assert (H2 : 5999 < 6000) by lia.
  split; [reflexivity|]. split; [reflexivity|].
  split; [exact (proj1 (formatTime_tells_time_left 65 65 H0 H0))|].
  split; [exact (proj2 (formatTime_tells_time_left 5999 5999 H1 H1) H2)|].
  reflexivity.
Defined.

(** ** Store: the two lists *)

Lemma filter_split_perm {A : Type} (f g : A -> bool) (l : list A) :
  (forall a, g a = negb (f a)) ->
  Permutation (filter f l ++ filter g l) l.
Proof.
  intros Hg. induction l as [|a l IH]; [reflexivity|].
  cbn [filter]. rewrite (Hg a). destruct (f a); cbn [negb app].
  - now constructor.
  - rewrite <- Permutation_middle. now constructor.
Qed.

Lemma completed_is_not_active (task : ParsedTask) :
  Status_eqb (status task) completed = negb (Status_eqb (status task) active).
Proof. now destruct (status task). Qed.

(** X7: every task of the store is shown in exactly one of the two lists of
    the task view: the priority-ordered list of active tasks or the list of
    completed tasks. *)
Theorem task_view_partitions_store (ts : list ParsedTask) :
  Permutation (sortedActiveTasks ts ++ completedTasks ts) ts
  /\ (forall task, In task (sortedActiveTasks ts) -> ~ In task (completedTasks ts))
  /\ (List.length (sortedActiveTasks ts) + List.length (completedTasks ts)
        = List.length ts)%nat
  /\ (forall task, In task ts ->
        In task (sortedActiveTasks ts) \/ In task (completedTasks ts)).
Proof.
  pose proof (arraySort_perm (fun a => priorityOrder (priority a)) (activeTasks ts))
    as Hsort.
  change (arraySort _ (activeTasks ts)) with (sortedActiveTasks ts) in Hsort.
  assert (Hperm : Permutation (sortedActiveTasks ts ++ completedTasks ts) ts).
  { rewrite Hsort. apply filter_split_perm. apply completed_is_not_active. }
  split; [exact Hperm|]. split; [|split].
  - intros task Hin Hc. apply (Permutation_in _ Hsort) in Hin.
    apply filter_In in Hin as [_ Ha]. apply filter_In in Hc as [_ Hc].
    destruct (status task); discriminate.
  - rewrite <- List.length_app. now apply Permutation_length.
  - intros task Hin. apply in_app_or.
    now apply (Permutation_in _ (Permutation_sym Hperm)).
Qed.

(** ** Store: toggling *)

Lemma toggledTask_twice (task : ParsedTask) : toggledTask (toggledTask task) = task.
Proof. destruct task as [i n d tm c p [] src]; reflexivity. Qed.

Lemma NoDup_map_inj {A B : Type} (f : A -> B) (l : list A) (a b : A) :
  NoDup (map f l) -> In a l -> In b l -> f a = f b -> a = b.
Proof.
  induction l as [|x l IH]; cbn; [contradiction|].
  intros Hnd Ha Hb Hf. inversion Hnd as [|? ? Hnotin Hnd']; subst.
  destruct Ha as [->|Ha], Hb as [->|Hb]; auto.
  - exfalso. apply Hnotin. rewrite Hf. now apply in_map.
  - exfalso. apply Hnotin. rewrite <- Hf. now apply in_map.
Qed.

(** After a toggle of [tid] no timer is attached to [tid]. *)
Lemma toggle_detached (tid : Z) (s : AppState) :
  timerAttachedTo tid (handleToggleComplete tid s) = false.
Proof.
  unfold timerAttachedTo at 1. rewrite toggle_timer.
  destruct (timerAttachedTo tid s) eqn:E; [reflexivity|exact E].
Qed.

(** X8: toggling the same task twice restores the store, so a completed task
    can be revived as it was; it restores the whole state unless the timer
    was attached to that task, which the first toggle discards. *)
Theorem toggle_twice_restores (tid : Z) (s : AppState) :
  tasks (handleToggleComplete tid (handleToggleComplete tid s)) = tasks s
  /\ (timerAttachedTo tid s = false ->
        handleToggleComplete tid (handleToggleComplete tid s) = s)
  /\ (timerAttachedTo tid s = true ->
        handleToggleComplete tid (handleToggleComplete tid s) = setActiveTimer None s).
Proof.
  assert (Hts : tasks (handleToggleComplete tid (handleToggleComplete tid s)) = tasks s).
  { rewrite !toggle_tasks, map_map. rewrite <- (map_id (tasks s)) at 2.
    apply map_ext. intros task.
    destruct (Z.eqb_spec (id task) tid) as [E|E].
    - change (id (toggledTask task)) with (id task).
      destruct (Z.eqb_spec (id task) tid); [apply toggledTask_twice|contradiction].
    - destruct (Z.eqb_spec (id task) tid); [contradiction|reflexivity]. }
  split; [exact Hts|].
  assert (Hshape : forall s', handleToggleComplete tid s'
            = setActiveTimer (activeTimer (handleToggleComplete tid s'))
                (setTasks (tasks (handleToggleComplete tid s')) s')).
  { intros s'. unfold handleToggleComplete.
    destruct (timerAttachedTo tid s'); reflexivity. }
  split; intros Hatt.
  - rewrite Hshape, Hts. rewrite !toggle_timer.
    pose proof (toggle_detached tid s) as Hatt'.
    rewrite Hatt', Hatt. unfold handleToggleComplete. rewrite Hatt. now destruct s.
  - rewrite Hshape, Hts. rewrite !toggle_timer.
    pose proof (toggle_detached tid s) as Hatt'.
    rewrite Hatt', Hatt. unfold handleToggleComplete. rewrite Hatt. now destruct s.
Qed.

(** X9: in a store with distinct ids, completing an active task takes it out
    of the active list and puts it, completed, in the completed list; every
    other task stays in the list it was in. *)
Theorem toggle_moves_task_between_lists (tid : Z) (s : AppState) (task : ParsedTask) :
  idsUnique (tasks s) -> In task (tasks s) -> id task = tid -> status task = active ->
  let s' := handleToggleComplete tid s in
  In (toggledTask task) (completedTasks (tasks s'))
  /\ (forall other, In other (sortedActiveTasks (tasks s')) -> id other <> tid)
  /\ (forall other, id other <> tid ->
        (In other (sortedActiveTasks (tasks s')) <-> In other (sortedActiveTasks (tasks s)))
        /\ (In other (completedTasks (tasks s')) <-> In other (completedTasks (tasks s)))).
Proof.
  intros Huniq Hin Hid Hact s'. subst s'.
  assert (Hsorted : forall ts other,
            In other (sortedActiveTasks ts) <-> In other ts /\ status other = active).
  { intros ts other. unfold sortedActiveTasks.
    pose proof (arraySort_perm (fun a => priorityOrder (priority a)) (activeTasks ts)) as Hp.
    split.
    - intros H. apply (Permutation_in _ Hp) in H. apply filter_In in H as [H1 H2].
      split; [exact H1|]. now destruct (status other).
    - intros [H1 H2]. apply (Permutation_in _ (Permutation_sym Hp)).
      apply filter_In. split; [exact H1|]. now rewrite H2. }
  assert (Hafter : forall other,
            In other (tasks (handleToggleComplete tid s)) <->
            exists u, In u (tasks s)
                      /\ other = (if id u =? tid then toggledTask u else u)).
  { intros other. rewrite toggle_tasks, in_map_iff. split.
    - intros (u & Hu & Hinu). exists u. now split.
    - intros (u & Hinu & Hu). exists u. now split. }
  split; [|split].
  - unfold completedTasks. apply filter_In. split.
    + apply Hafter. exists task. split; [exact Hin|]. subst tid. now rewrite Z.eqb_refl.
    + cbn. now rewrite Hact.
  - intros other Hother Hoid. apply Hsorted in Hother as [Hother Hst].
    apply Hafter in Hother as (u & Hinu & Hu).
    destruct (Z.eqb_spec (id u) tid) as [E|E].
    + assert (u = task)
        by (apply (NoDup_map_inj id (tasks s)); [exact Huniq|assumption|assumption|congruence]).
      subst u other. cbn in Hst. rewrite Hact in Hst. discriminate.
    + subst other. contradiction.
  - intros other Hoid.
    assert (Hsame : In other (tasks (handleToggleComplete tid s)) <-> In other (tasks s)).
    { rewrite Hafter. split.
      - intros (u & Hinu & Hu). destruct (Z.eqb_spec (id u) tid) as [E|E].
        + subst other. cbn in Hoid. contradiction.
        + now subst other.
      - intros Hino. exists other. split; [exact Hino|].
        destruct (Z.eqb_spec (id other) tid); [contradiction|reflexivity]. }
    split.
    + rewrite !Hsorted, Hsame. reflexivity.
    + unfold completedTasks. rewrite !filter_In, Hsame. reflexivity.
Qed.

Lemma toggle_moves_task_between_lists_witness :
  let task := {| id := 3; taskName := "Review"; date := "July 26, 2024";
                 time := None; category := "Work"; priority := Medium;
                 status := active; source := lucid |} in
  let s := setTasks [task] initialState in
  In (toggledTask task) (completedTasks (tasks (handleToggleComplete 3 s)))
  /\ sortedActiveTasks (tasks (handleToggleComplete 3 s)) = [].
Proof.
  intros task s.
  assert (Huniq : idsUnique (tasks s)) by (repeat constructor; intros []).
  assert (Hin : In task (tasks s)) by now left.
  destruct (toggle_moves_task_between_lists 3 s task Huniq Hin eq_refl eq_refl)
    as (Hdone & _ & _).
  split; [exact Hdone|reflexivity].
Defined.

(** ** Store: syncing and disconnecting *)

Lemma not_google_is_local (task : ParsedTask) :
  negb (Source_eqb (source task) google) = isLocal task.
Proof. unfold isLocal. now destruct (source task). Qed.

Lemma filter_filter_same {A : Type} (f : A -> bool) (l : list A) :
  filter f (filter f l) = filter f l.
Proof.
  induction l as [|a l IH]; [reflexivity|]. cbn [filter].
  destruct (f a) eqn:E; [cbn [filter]; rewrite E; now f_equal|exact IH].
Qed.

Lemma filter_none {A : Type} (f g : A -> bool) (l : list A) :
  (forall a, f a = true -> g a = false) -> filter g (filter f l) = [].
Proof.
  intros H. induction l as [|a l IH]; [reflexivity|]. cbn [filter].
  destruct (f a) eqn:E; [cbn [filter]; now rewrite (H a E)|exact IH].
Qed.

Lemma syncNow_tasks (c : SyncClock) (s : AppState) :
  tasks (handleSyncNow c s) = filter isLocal (tasks s) ++ googleEvents c.
Proof.
  cbn. f_equal. apply filter_ext. intros a. apply not_google_is_local.
Qed.

Lemma disconnect_tasks (s : AppState) :
  tasks (handleDisconnectGoogleCalendar s) = filter isLocal (tasks s).
Proof. cbn. apply filter_ext. intros a. apply not_google_is_local. Qed.

Lemma local_not_external (task : ParsedTask) :
  isLocal task = true -> isExternal task = false.
Proof. unfold isLocal, isExternal. now destruct (source task). Qed.

(** X10: a sync replaces the external tasks and nothing else.  After it the
    local tasks are the ones before it, in their order; the external tasks
    are exactly the two of this batch, behind the local ones; so a second
    sync leaves no task of the first; and neither the timer nor the settings
    change. *)
Theorem sync_replaces_external_tasks (c1 c2 : SyncClock) (s : AppState) :
  filter isLocal (tasks (handleSyncNow c1 s)) = filter isLocal (tasks s)
  /\ filter isExternal (tasks (handleSyncNow c1 s)) = googleEvents c1
  /\ tasks (handleSyncNow c1 s) = filter isLocal (tasks s) ++ googleEvents c1
  /\ tasks (handleSyncNow c2 (handleSyncNow c1 s)) = tasks (handleSyncNow c2 s)
  /\ activeTimer (handleSyncNow c1 s) = activeTimer s
  /\ pomodoroSettings (handleSyncNow c1 s) = pomodoroSettings s.
Proof.
  assert (Hloc : forall c s', filter isLocal (tasks (handleSyncNow c s'))
                              = filter isLocal (tasks s')).
  { intros c s'. rewrite syncNow_tasks, filter_app, filter_filter_same.
    cbn. apply app_nil_r. }
  split; [apply Hloc|]. split; [|split; [apply syncNow_tasks|split]].
  - rewrite syncNow_tasks, filter_app.
    rewrite (filter_none isLocal isExternal) by apply local_not_external.
    reflexivity.
  - rewrite (syncNow_tasks c2 (handleSyncNow c1 s)), Hloc. symmetry.
    apply syncNow_tasks.
  - split; reflexivity.
Qed.

(** X11: disconnecting the calendar removes the external tasks and nothing
    else: the local tasks stay, in their order, whatever was synced before;
    a second disconnect changes nothing more; and the timer is left as it is,
    also when it was attached to a removed task. *)
Theorem disconnect_removes_external_tasks (c : SyncClock) (s : AppState) :
  tasks (handleDisconnectGoogleCalendar s) = filter isLocal (tasks s)
  /\ filter isExternal (tasks (handleDisconnectGoogleCalendar s)) = []
  /\ tasks (handleDisconnectGoogleCalendar (handleSyncNow c s))
       = filter isLocal (tasks s)
  /\ handleDisconnectGoogleCalendar (handleDisconnectGoogleCalendar s)
       = handleDisconnectGoogleCalendar s
  /\ activeTimer (handleDisconnectGoogleCalendar s) = activeTimer s
  /\ (Forall (fun task => source task = lucid) (tasks s) ->
        tasks (handleDisconnectGoogleCalendar s) = tasks s).
Proof.
  split; [apply disconnect_tasks|]. split; [|split; [|split; [|split]]].
  - rewrite disconnect_tasks. apply filter_none, local_not_external.
  - rewrite disconnect_tasks, syncNow_tasks, filter_app, filter_filter_same.
    cbn. apply app_nil_r.
  - unfold handleDisconnectGoogleCalendar at 1 3. cbn.
    now rewrite filter_filter_same.
  - reflexivity.
  - intros Hall. rewrite disconnect_tasks.
    induction Hall as [|task l Hsrc Hall IH]; [reflexivity|].
    cbn [filter]. unfold isLocal at 1. rewrite Hsrc. cbn. now f_equal.
Qed.

(** ** Store: accepting *)

(** X12: accepting the candidate on the card appends one task to the store:
    active, local, with the clock reading as id and the fields of the
    candidate; it empties the card, so a second press of Accept adds nothing;
    and with no candidate on the card Accept does nothing. *)
Theorem accept_appends_once (now now' : Z) (s : AppState) :
  (forall c, parsedTask s = Some c ->
     tasks (handleAccept now s)
       = tasks s ++ [ {| id := now; taskName := cTaskName c; date := cDate c;
                         time := cTime c; category := cCategory c;
                         priority := cPriority c; status := active;
                         source := lucid |} ]
     /\ parsedTask (handleAccept now s) = None)
  /\ handleAccept now' (handleAccept now s) = handleAccept now s
  /\ (parsedTask s = None -> handleAccept now s = s)
  /\ activeTimer (handleAccept now s) = activeTimer s.
Proof.
  unfold handleAccept. destruct (parsedTask s) as [c|] eqn:Hc.
  - split; [intros c' [= <-]; split; reflexivity|].
    split; [reflexivity|]. split; [discriminate|reflexivity].
  - split; [discriminate|]. rewrite Hc. repeat split.
Qed.

(** ** Store: moving a task on the calendar *)

Lemma insertSorted_map {A : Type} (compareFn : A -> A -> Z) (g : A -> A)
    (x : A) (l : list A) :
  (forall a b, compareFn (g a) (g b) = compareFn a b) ->
  insertSorted compareFn (g x) (map g l) = map g (insertSorted compareFn x l).
Proof.
  intros Hg. induction l as [|y l IH]; [reflexivity|].
  cbn [map insertSorted]. rewrite Hg.
  destruct (compareFn x y <=? 0); cbn [map]; [reflexivity|now rewrite IH].
Qed.

Lemma arraySort_map {A : Type} (compareFn : A -> A -> Z) (g : A -> A) (l : list A) :
  (forall a b, compareFn (g a) (g b) = compareFn a b) ->
  arraySort compareFn (map g l) = map g (arraySort compareFn l).
Proof.
  intros Hg. induction l as [|x l IH]; [reflexivity|].
  cbn [map arraySort fold_right]. fold (arraySort compareFn (map g l)).
  fold (arraySort compareFn l). rewrite IH. now apply insertSorted_map.
Qed.

Lemma filter_map_same {A : Type} (f : A -> bool) (g : A -> A) (l : list A) :
  (forall a, f (g a) = f a) -> filter f (map g l) = map g (filter f l).
Proof.
  intros Hg. induction l as [|x l IH]; [reflexivity|].
  cbn [map filter]. rewrite Hg. destruct (f x); cbn [map]; now rewrite IH.
Qed.

Lemma eventDrop_tasks (eid t : Z) (isAllDay : bool) (s : AppState) :
  tasks (handleEventDrop eid t isAllDay s)
    = map (fun task => if id task =? eid then rescheduledTask t isAllDay task
                       else task) (tasks s).
Proof. reflexivity. Qed.

(** X13: dropping an event on another date rewrites the date and time texts
    of the tasks with that id and nothing else.  Both lists of the task view
    keep their tasks in the same places, each with its id, name, category,
    priority, status and source; an id that no task has leaves the state as it
    is; a second drop of the same event overrides the first; and the timer is
    not touched. *)
Theorem event_drop_rewrites_only_date_texts
    (eid t t' : Z) (isAllDay isAllDay' : bool) (s : AppState) :
  let moved := fun task => if id task =? eid then rescheduledTask t isAllDay task
                           else task in
  sortedActiveTasks (tasks (handleEventDrop eid t isAllDay s))
    = map moved (sortedActiveTasks (tasks s))
  /\ completedTasks (tasks (handleEventDrop eid t isAllDay s))
       = map moved (completedTasks (tasks s))
  /\ (forall task, id (moved task) = id task /\ taskName (moved task) = taskName task
                   /\ category (moved task) = category task
                   /\ priority (moved task) = priority task
                   /\ status (moved task) = status task
                   /\ source (moved task) = source task
                   /\ (id task <> eid -> moved task = task))
  /\ (Forall (fun task => id task <> eid) (tasks s) ->
        handleEventDrop eid t isAllDay s = s)
  /\ handleEventDrop eid t' isAllDay' (handleEventDrop eid t isAllDay s)
       = handleEventDrop eid t' isAllDay' s
  /\ activeTimer (handleEventDrop eid t isAllDay s) = activeTimer s.
Proof.
  intros moved.
  assert (Hfields : forall task,
            id (moved task) = id task /\ taskName (moved task) = taskName task
            /\ category (moved task) = category task
            /\ priority (moved task) = priority task
            /\ status (moved task) = status task
            /\ source (moved task) = source task
            /\ (id task <> eid -> moved task = task)).
  { intros task. unfold moved.
    destruct (Z.eqb_spec (id task) eid); repeat split; intros; contradiction. }
  split; [|split; [|split; [exact Hfields|split; [|split]]]].
  - rewrite eventDrop_tasks. fold moved. unfold sortedActiveTasks, activeTasks.
    assert (Hstatus : forall a, Status_eqb (status (moved a)) active
                                = Status_eqb (status a) active).
    { intros a. now destruct (Hfields a) as (_ & _ & _ & _ & -> & _). }
    rewrite (filter_map_same _ moved _ Hstatus).
    apply arraySort_map. intros a b.
    destruct (Hfields a) as (_ & _ & _ & Ha & _), (Hfields b) as (_ & _ & _ & Hb & _).
    now rewrite Ha, Hb.
  - rewrite eventDrop_tasks. fold moved. unfold completedTasks.
    apply filter_map_same. intros a.
    destruct (Hfields a) as (_ & _ & _ & _ & Ha & _). now rewrite Ha.
  - intros Habs. unfold handleEventDrop. fold moved.
    replace (map moved (tasks s)) with (tasks s); [apply setTasks_same|].
    induction Habs as [|task l Hne Habs IH]; [reflexivity|].
    cbn [map]. rewrite <- IH. f_equal. symmetry. now apply Hfields.
  - set (moved' := fun task => if id task =? eid
                               then rescheduledTask t' isAllDay' task else task).
    assert (Hlast : map moved' (map moved (tasks s)) = map moved' (tasks s)).
    { rewrite map_map. apply map_ext. intros task. unfold moved', moved.
      destruct (Z.eqb_spec (id task) eid) as [E|E].
      - change (id (rescheduledTask t isAllDay task)) with (id task).
        destruct (Z.eqb_spec (id task) eid); [reflexivity|contradiction].
      - destruct (Z.eqb_spec (id task) eid); [contradiction|reflexivity]. }
    change (handleEventDrop eid t' isAllDay' (handleEventDrop eid t isAllDay s))
      with (setTasks (map moved' (map moved (tasks s))) s).
    now rewrite Hlast.
  - reflexivity.
Qed.

(** ** Calendar view *)

Lemma filterBoolean_In {A : Type} (l : list (option A)) (a : A) :
  In a (filterBoolean l) <-> In (Some a) l.
Proof.
  induction l as [|[b|] l IH]; cbn; [reflexivity| |].
  - rewrite IH. split; intros [H|H]; auto; left; congruence.
  - rewrite IH. split; [auto|]. intros [H|H]; [discriminate|exact H].
Qed.

Lemma filterBoolean_length {A : Type} (l : list (option A)) :
  (List.length (filterBoolean l) <= List.length l)%nat.
Proof. induction l as [|[b|] l IH]; cbn; lia. Qed.

Lemma sortedActiveTasks_In (ts : list ParsedTask) (task : ParsedTask) :
  In task (sortedActiveTasks ts) <-> In task ts /\ status task = active.
Proof.
  pose proof (arraySort_perm (fun a => priorityOrder (priority a)) (activeTasks ts)) as Hp.
  change (arraySort _ (activeTasks ts)) with (sortedActiveTasks ts) in Hp. split.
  - intros H. apply (Permutation_in _ Hp) in H. apply filter_In in H as [H1 H2].
    split; [exact H1|]. now destruct (status task).
  - intros [H1 H2]. apply (Permutation_in _ (Permutation_sym Hp)).
    apply filter_In. split; [exact H1|]. now rewrite H2.
Qed.

Lemma calendarEvents_In (ts : list ParsedTask) (ev : CalendarEvent) :
  In ev (calendarEvents ts) <->
  exists task, In task ts /\ status task = active /\ calendarEvent task = Some ev.
Proof.
  unfold calendarEvents. rewrite filterBoolean_In, in_map_iff. split.
  - intros (task & Hev & Hin). apply filter_In in Hin as [Hin Hst].
    exists task. repeat split; auto. now destruct (status task).
  - intros (task & Hin & Hst & Hev). exists task. split; [exact Hev|].
    apply filter_In. split; [exact Hin|]. now rewrite Hst.
Qed.

(** X14: the calendar shows the active tasks whose date text parses, and only
    those.  Each event carries the id and the name of its task, starts at the
    time the texts parse to, and is an all-day event exactly when the task has
    no time text ([null] or empty).  An active task whose date does not parse
    has no event, and still has its row in the task view. *)
Theorem calendar_shows_active_tasks_that_parse (ts : list ParsedTask) :
  (forall ev, In ev (calendarEvents ts) <->
     exists task, In task ts /\ status task = active
                  /\ calendarEvent task = Some ev)
  /\ (forall task ev, calendarEvent task = Some ev ->
        parseTaskDateTime task = Some (start ev)
        /\ evId ev = numberToString (id task) /\ title ev = taskName task
        /\ allDay ev = negb (hasTime task))
  /\ (forall task, In task ts -> status task = active ->
        parseTaskDateTime task = None ->
        calendarEvent task = None /\ In task (sortedActiveTasks ts))
  /\ (List.length (calendarEvents ts) <= List.length (sortedActiveTasks ts))%nat.
Proof.
  split; [apply calendarEvents_In|]. split; [|split].
  - intros task ev. unfold calendarEvent.
    destruct (parseTaskDateTime task) as [st|]; [|discriminate].
    intros [= <-]. repeat split.
  - intros task Hin Hst Hnone. unfold calendarEvent. rewrite Hnone.
    split; [reflexivity|]. now apply sortedActiveTasks_In.
  - pose proof (Permutation_length
                  (arraySort_perm (fun a => priorityOrder (priority a))
                     (activeTasks ts))) as Hlen.
    change (arraySort _ (activeTasks ts)) with (sortedActiveTasks ts) in Hlen.
    rewrite Hlen, <- (length_map calendarEvent (activeTasks ts)).
    apply filterBoolean_length.
Qed.

(** A task on a day that February does not have, and a task at 3:00 PM. *)
Example calendar_skips_unparseable_date :
  let task i d tm :=
    {| id := i; taskName := "t"; date := d; time := tm; category := "Work";
       priority := Medium; status := active; source := lucid |} in
  let ts := [task 1 "February 30, 2024" None;
             task 2 "July 26, 2024" (Some "3:00 PM")]%string in
  map (fun ev => (evId ev, start ev, allDay ev)) (calendarEvents ts)
    = [("2"%string, 1722006000000, false)]
  /\ map id (sortedActiveTasks ts) = [1; 2].
Proof. split; reflexivity. Qed.

Lemma toLocaleDateString_not_empty (t : Z) : isEmpty (toLocaleDateString t) = false.
Proof.
  unfold toLocaleDateString.
  pose proof (civilFromDays_valid (Day t)) as Hv.
  destruct (civilFromDays (Day t)) as [[y m] d].
  apply monthName_not_empty. lia.
Qed.

(** X15: after an event is dropped on a time from year 0 on, the calendar
    shows the event of that task at the new time: to the minute and not
    all-day when it was dropped on a time slot, at the start of the day and
    all-day when it was dropped as an all-day event. *)
Theorem dropped_event_shows_at_new_time
    (eid t : Z) (isAllDay : bool) (s : AppState) (task : ParsedTask) :
  In task (tasks s) -> id task = eid -> status task = active -> minTime <= t ->
  exists ev,
    In ev (calendarEvents (tasks (handleEventDrop eid t isAllDay s)))
    /\ evId ev = numberToString eid
    /\ title ev = taskName task
    /\ start ev = (if isAllDay then t - t mod msPerDay else t - t mod msPerMinute)
    /\ allDay ev = isAllDay.
Proof.
  intros Hin Hid Hst Hmin.
  destruct (reschedule_then_parse task t Hmin) as [Hclock Hday].
  assert (Hparse : parseTaskDateTime (rescheduledTask t isAllDay task)
                   = Some (if isAllDay then t - t mod msPerDay
                           else t - t mod msPerMinute))
    by (destruct isAllDay; assumption).
  eexists. split; [|split; [|split; [|split]]].
  - apply calendarEvents_In. exists (rescheduledTask t isAllDay task).
    split; [|split; [exact Hst|]].
    + rewrite eventDrop_tasks. apply in_map_iff. exists task.
      split; [|exact Hin]. subst eid. now rewrite Z.eqb_refl.
    + unfold calendarEvent. rewrite Hparse. reflexivity.
  - cbn. now rewrite Hid.
  - reflexivity.
  - reflexivity.
  - assert (Htime : isEmpty (toLocaleTimeString t) = false)
      by apply showZ_not_empty.
    cbn [allDay]. unfold hasTime, rescheduledTask. cbn [time].
    destruct isAllDay; [reflexivity|]. now rewrite Htime.
Qed.

Lemma dropped_event_shows_at_new_time_witness :
  let task := {| id := 2; taskName := "Review"; date := "February 30, 2024";
                 time := None; category := "Work"; priority := Medium;
                 status := active; source := lucid |} in
  let s := setTasks [task] initialState in
  calendarEvents (tasks s) = []
  /\ exists ev,
       In ev (calendarEvents (tasks (handleEventDrop 2 1722006030000 false s)))
       /\ start ev = 1722006000000 /\ allDay ev = false.
Proof.
  intros task s. split; [reflexivity|].
  assert (Hin : In task (tasks s)) by now left.
  assert (Hmin : minTime <= 1722006030000) by (vm_compute; discriminate).
  destruct (dropped_event_shows_at_new_time 2 1722006030000 false s task
              Hin eq_refl eq_refl Hmin) as (ev & Hev & _ & _ & Hstart & Hall).
  exists ev. split; [exact Hev|]. split; [exact Hstart|exact Hall].
Defined.

(** ** The synced events *)

Lemma daysFromCivil_next (y m d : Z) :
  daysFromCivil y m (d + 1) = daysFromCivil y m d + 1.
Proof. unfold daysFromCivil. lia. Qed.

(** [setDate] with the day after [getDate] of a reading of the same day gives
    the same time on the next day. *)
Lemma setDate_next_day (r1 r2 : Z) :
  Day r2 = Day r1 ->
  Day (setDate r2 (getDate r1 + 1)) = Day r1 + 1.
Proof.
  intros Hsame. unfold setDate, getDate. rewrite Hsame.
  pose proof (civilFromDays_valid (Day r1)) as Hv.
  destruct (civilFromDays (Day r1)) as [[y m] d].
  destruct Hv as (_ & _ & Hback & _).
  rewrite daysFromCivil_next, Hback.
  unfold Day at 1. unfold TimeWithinDay.
  pose proof (Z.mod_pos_bound r2 msPerDay ltac:(reflexivity)) as Hr.
  rewrite Z.div_add_l by (unfold msPerDay; lia).
  rewrite (Z.div_small _ _ Hr). lia.
Qed.

Lemma minTime_of_Day (t : Z) : daysFromCivil 0 1 1 <= Day t -> minTime <= t.
Proof.
  unfold minTime, Day. change (daysFromCivil 0 1 1) with (-719528).
  unfold msPerDay. intros H. Z.div_mod_to_equations. lia.
Qed.

(** A task dated by [toLocaleDateString] with a clock text that
    [parseClock] reads parses to that clock on that day. *)
Lemma parse_written_date_with_clock (task : ParsedTask) (t c : Z) (tm : string) :
  date task = toLocaleDateString t -> time task = Some tm -> isEmpty tm = false ->
  noDigitAhead (" " ++ tm) = true -> parseClock (" " ++ tm) = Some c ->
  minTime <= t ->
  parseTaskDateTime task = Some (Day t * msPerDay + c).
Proof.
  intros Hd Htm Hne Hnd Hc Hmin. unfold parseTaskDateTime.
  rewrite Hd, Htm, Hne, toLocaleDateString_not_empty.
  now apply parseDate_written.
Qed.

(** X16: the two events of a sync are on the calendar when the clock is past
    year 0 and the handler's two [new Date()] fall on the same day: the Team
    Standup at 10:00 AM of that day and the Design Review at 2:30 PM of the
    day after, neither of them all-day. *)
Theorem synced_events_on_calendar (c : SyncClock) :
  minTime <= todayReading c -> Day (tomorrowReading c) = Day (todayReading c) ->
  map (fun ev => (title ev, start ev, allDay ev)) (calendarEvents (googleEvents c))
    = [ ("Team Standup"%string,
         Day (todayReading c) * msPerDay + 10 * msPerHour, false);
        ("Design Review"%string,
         (Day (todayReading c) + 1) * msPerDay + 14 * msPerHour + 30 * msPerMinute,
         false) ].
Proof.
  intros Hmin Hsame.
  set (tomorrow := setDate (tomorrowReading c) (getDate (todayReading c) + 1)).
  assert (Hnext : Day tomorrow = Day (todayReading c) + 1)
    by now apply setDate_next_day.
  assert (Hmin' : minTime <= tomorrow).
  { apply minTime_of_Day. rewrite Hnext. pose proof (Day_min _ Hmin). lia. }
  set (e1 := {| id := idReading1 c; taskName := "Team Standup";
                date := toLocaleDateString (todayReading c);
                time := Some "10:00 AM"%string; category := "Work";
                priority := Medium; status := active; source := google |}).
  set (e2 := {| id := idReading2 c + 1; taskName := "Design Review";
                date := toLocaleDateString tomorrow;
                time := Some "2:30 PM"%string; category := "Work";
                priority := High; status := active; source := google |}).
  assert (H1 : parseTaskDateTime e1
               = Some (Day (todayReading c) * msPerDay + 36000000))
    by (apply (parse_written_date_with_clock e1 _ _ "10:00 AM"); auto).
  assert (H2 : parseTaskDateTime e2 = Some (Day tomorrow * msPerDay + 52200000))
    by (apply (parse_written_date_with_clock e2 _ _ "2:30 PM"); auto).
  change (calendarEvents (googleEvents c))
    with (filterBoolean [calendarEvent e1; calendarEvent e2]).
  unfold calendarEvent. rewrite H1, H2, Hnext.
  cbn [filterBoolean map title start allDay].
  change (negb (hasTime e1)) with false. change (negb (hasTime e2)) with false.
  replace (Day (todayReading c) * msPerDay + 36000000)
    with (Day (todayReading c) * msPerDay + 10 * msPerHour)
    by (unfold msPerHour; lia).
  replace ((Day (todayReading c) + 1) * msPerDay + 52200000)
    with ((Day (todayReading c) + 1) * msPerDay + 14 * msPerHour + 30 * msPerMinute)
    by (unfold msPerHour, msPerMinute; lia).
  reflexivity.
Qed.

Lemma synced_events_on_calendar_witness :
  map (fun ev => (title ev, start ev, allDay ev))
    (calendarEvents
       (googleEvents {| todayReading := 1722006000000; tomorrowReading := 1722006000001;
                        idReading1 := 1722006000001; idReading2 := 1722006000002 |}))
    = [ ("Team Standup"%string, 1721988000000, false);
        ("Design Review"%string, 1722090600000, false) ].
Proof.
  assert (Hmin : minTime <= 1722006000000) by (vm_compute; discriminate).
  exact (synced_events_on_calendar
           {| todayReading := 1722006000000; tomorrowReading := 1722006000001;
              idReading1 := 1722006000001; idReading2 := 1722006000002 |}
           Hmin eq_refl).
Defined.

(** ** The form and the candidate card *)

Lemma handleAccept_appends (now : Z) (s : AppState) :
  exists added,
    tasks (handleAccept now s) = tasks s ++ added
    /\ (List.length added <= 1)%nat
    /\ Forall (fun task => id task = now /\ status task = active /\ source task = lucid)
              added
    /\ activeTimer (handleAccept now s) = activeTimer s
    /\ pomodoroSettings (handleAccept now s) = pomodoroSettings s.
Proof.
  unfold handleAccept. destruct (parsedTask s) as [c|].
  - eexists. split; [reflexivity|]. cbn. repeat split; try lia.
    constructor; [repeat split|constructor].
  - exists []. rewrite app_nil_r. cbn. repeat split; try lia. constructor.
Qed.

Lemma formStep_store (f : FormState) (op : FormOp) :
  exists added,
    tasks (cells (formStep f op)) = tasks (cells f) ++ added
    /\ (List.length added <= if isAccept op then 1 else 0)%nat
    /\ Forall (fun task => status task = active /\ source task = lucid) added
    /\ activeTimer (cells (formStep f op)) = activeTimer (cells f)
    /\ pomodoroSettings (cells (formStep f op)) = pomodoroSettings (cells f).
Proof.
  assert (Hsame : forall f', tasks (cells f') = tasks (cells f) ->
            activeTimer (cells f') = activeTimer (cells f) ->
            pomodoroSettings (cells f') = pomodoroSettings (cells f) ->
            exists added,
              tasks (cells f') = tasks (cells f) ++ added
              /\ (List.length added <= 0)%nat
              /\ Forall (fun task => status task = active /\ source task = lucid) added
              /\ activeTimer (cells f') = activeTimer (cells f)
              /\ pomodoroSettings (cells f') = pomodoroSettings (cells f)).
  { intros f' H1 H2 H3. exists []. rewrite app_nil_r.
    repeat split; auto. }
  destruct op; cbn [formStep isAccept]; try (apply Hsame; reflexivity).
  - apply Hsame; unfold clickSchedule, handleSubmit;
      destruct (isLoading f || isBlank (userInput f)); try reflexivity;
      destruct (isBlank (userInput f)); try reflexivity;
      destruct response; reflexivity.
  - apply Hsame; unfold handleEditChange; destruct (editedTask f); reflexivity.
  - apply Hsame; unfold handleSaveEdit; destruct (editedTask f); reflexivity.
  - destruct (handleAccept_appends now (cells f)) as (added & H1 & H2 & H3 & H4 & H5).
    exists added. cbn [handleAcceptForm cells].
    split; [exact H1|]. split; [exact H2|]. split; [|split; assumption].
    eapply Forall_impl; [|exact H3]. cbn. intros a (_ & Ha & Hs). now split.
Qed.

(** X17: nothing in the form reaches the store except Accept.  Whatever is
    typed, scheduled, edited, saved or cancelled, the tasks that were in the
    store stay as they are and where they are; the run adds at most one
    task for each press of Accept, at the end, each of them active and
    local; and the timer and the settings are not touched. *)
Theorem form_adds_tasks_only_on_accept (ops : list FormOp) (f : FormState) :
  exists added,
    tasks (cells (runForm ops f)) = tasks (cells f) ++ added
    /\ (List.length added <= List.length (filter isAccept ops))%nat
    /\ Forall (fun task => status task = active /\ source task = lucid) added
    /\ activeTimer (cells (runForm ops f)) = activeTimer (cells f)
    /\ pomodoroSettings (cells (runForm ops f)) = pomodoroSettings (cells f).
Proof.
  revert f. induction ops as [|op ops IH]; intros f.
  - exists []. rewrite app_nil_r. cbn. repeat split; try lia. constructor.
  - cbn [runForm fold_left]. fold (runForm ops (formStep f op)).
    destruct (formStep_store f op) as (a1 & H1 & L1 & F1 & T1 & P1).
    destruct (IH (formStep f op)) as (a2 & H2 & L2 & F2 & T2 & P2).
    exists (a1 ++ a2). rewrite H2, H1, app_assoc.
    split; [reflexivity|]. split; [|split; [|split; congruence]].
    + rewrite List.length_app. cbn [filter].
      destruct (isAccept op); cbn [List.length]; lia.
    + apply Forall_app. now split.
Qed.

Lemma handleAcceptForm_no_candidate (now : Z) (f : FormState) :
  parsedTask (cells f) = None -> handleAcceptForm now f = f.
Proof.
  intros Hn. unfold handleAcceptForm, handleAccept. rewrite Hn. now destruct f.
Qed.

(** X18: what a press of "Schedule Task" leaves.  While a call is loading or
    the input is blank it does nothing.  Otherwise the loading flag is off
    again when the call is over; a call that fails leaves a message and no
    candidate, so that Accept then does nothing; a call that succeeds leaves
    its result on the card and in the edit form, no message, and Accept then
    puts that result in the store and empties the input. *)
Theorem schedule_then_accept (response : option Candidate) (now : Z) (f : FormState) :
  (isLoading f || isBlank (userInput f) = true -> clickSchedule response f = f)
  /\ (isLoading f || isBlank (userInput f) = false ->
        let f' := clickSchedule response f in
        isLoading f' = false /\ isEditing f' = false
        /\ match response with
           | None =>
               parsedTask (cells f') = None /\ error f' <> None
               /\ handleAcceptForm now f' = f'
           | Some c =>
               parsedTask (cells f') = Some c /\ editedTask f' = Some c
               /\ error f' = None
               /\ tasks (cells (handleAcceptForm now f'))
                    = tasks (cells f)
                        ++ [ {| id := now; taskName := cTaskName c; date := cDate c;
                                time := cTime c; category := cCategory c;
                                priority := cPriority c; status := active;
                                source := lucid |} ]
               /\ userInput (handleAcceptForm now f') = EmptyString
               /\ parsedTask (cells (handleAcceptForm now f')) = None
           end).
Proof.
  unfold clickSchedule. split.
  - intros H. now rewrite H.
  - intros H. rewrite H. apply orb_false_iff in H as [_ Hblank].
    unfold handleSubmit. rewrite Hblank. cbv zeta.
    destruct response as [c|].
    + repeat split.
    + split; [reflexivity|]. split; [reflexivity|].
      split; [reflexivity|]. split; [discriminate|].
      now apply handleAcceptForm_no_candidate.
Qed.

Lemma schedule_then_accept_witness :
  let c := {| cTaskName := "Call Jake"; cDate := "July 26, 2024";
              cTime := None; cCategory := "Work"; cPriority := Medium |} in
  let f := setUserInput "Call Jake on July 26"%string initialForm in
  clickSchedule (Some c) initialForm = initialForm
  /\ map id (tasks (cells (handleAcceptForm 1000 (clickSchedule (Some c) f)))) = [1000]
  /\ handleAcceptForm 1000 (clickSchedule None f) = clickSchedule None f.
Proof.
  intros c f.
  split; [exact (proj1 (schedule_then_accept (Some c) 1000 initialForm) eq_refl)|].
  destruct (proj2 (schedule_then_accept (Some c) 1000 f) eq_refl)
    as (_ & _ & _ & _ & _ & Htasks & _).
  destruct (proj2 (schedule_then_accept None 1000 f) eq_refl)
    as (_ & _ & _ & _ & Hnoop).
  split; [rewrite Htasks; reflexivity|exact Hnoop].
Defined.

Lemma edits_keep_candidate (edits : list EditChange) (f : FormState) (c : Candidate) :
  editedTask f = Some c ->
  let f1 := fold_left (fun f e => handleEditChange e f) edits f in
  cells f1 = cells f /\ userInput f1 = userInput f
  /\ editedTask f1 = Some (fold_left (fun c e => applyEdit e c) edits c).
Proof.
  revert f c. induction edits as [|e edits IH]; intros f c He; cbn [fold_left].
  - now repeat split.
  - assert (He' : editedTask (handleEditChange e f) = Some (applyEdit e c))
      by (unfold handleEditChange; now rewrite He).
    destruct (IH _ _ He') as (H1 & H2 & H3). cbv zeta in *.
    rewrite H1, H2, H3. unfold handleEditChange. rewrite He. now repeat split.
Qed.

(** X19: edits count only when they are saved.  With a candidate on the card
    and in the edit form, any number of changes in the form leaves the card
    as it is, and Accept then stores the candidate without the changes; after
    Save, Accept stores the changed candidate.  The Cancel of the edit form
    only closes the form: the changes stay in it, and a later Save applies
    them; the Cancel of the card empties both. *)
Theorem edits_count_only_when_saved
    (edits : list EditChange) (now : Z) (f : FormState) (c : Candidate) :
  parsedTask (cells f) = Some c -> editedTask f = Some c ->
  let f1 := fold_left (fun f e => handleEditChange e f) edits f in
  let c' := fold_left (fun c e => applyEdit e c) edits c in
  let stored (x : Candidate) :=
    {| id := now; taskName := cTaskName x; date := cDate x; time := cTime x;
       category := cCategory x; priority := cPriority x; status := active;
       source := lucid |} in
  parsedTask (cells f1) = Some c
  /\ tasks (cells (handleAcceptForm now f1)) = tasks (cells f) ++ [stored c]
  /\ tasks (cells (handleAcceptForm now (handleSaveEdit f1)))
       = tasks (cells f) ++ [stored c']
  /\ parsedTask (cells (handleSaveEdit (setIsEditing true (setIsEditing false f1))))
       = Some c'
  /\ parsedTask (cells (handleCancel f1)) = None
  /\ editedTask (handleCancel f1) = None.
Proof.
  intros Hp He f1 c' stored.
  destruct (edits_keep_candidate edits f c He) as (Hcells & _ & Hedited).
  fold f1 in Hcells, Hedited. fold c' in Hedited.
  split; [now rewrite Hcells|]. split; [|split; [|split; [|split]]].
  - cbn [handleAcceptForm cells]. rewrite Hcells. unfold handleAccept.
    now rewrite Hp.
  - unfold handleSaveEdit. rewrite Hedited. cbn [handleAcceptForm cells].
    rewrite Hcells. reflexivity.
  - unfold handleSaveEdit. cbn [setIsEditing editedTask]. rewrite Hedited.
    reflexivity.
  - reflexivity.
  - reflexivity.
Qed.

Lemma edits_count_only_when_saved_witness :
  let c := {| cTaskName := "Call Jake"; cDate := "July 26, 2024";
              cTime := None; cCategory := "Work"; cPriority := Medium |} in
  let f := clickSchedule (Some c) (setUserInput "Call Jake"%string initialForm) in
  let f1 := fold_left (fun f e => handleEditChange e f)
              [EditPriority High; EditTime "3:00 PM"%string] f in
  map priority (tasks (cells (handleAcceptForm 1000 f1))) = [Medium]
  /\ map priority (tasks (cells (handleAcceptForm 1000 (handleSaveEdit f1)))) = [High].
Proof.
  intros c f f1.
  destruct (edits_count_only_when_saved
              [EditPriority High; EditTime "3:00 PM"%string] 1000 f c eq_refl eq_refl)
    as (_ & Hunsaved & Hsaved & _).
  subst f1. split; [rewrite Hunsaved|rewrite Hsaved]; reflexivity.
Defined.
